(** * Raw HTTP request transmitter: header codec and [sendRequest]

    A shallow embedding of the raw request sender (its [sendRequest],
    [pairFlatRawHeaders] and [flattenPairedRawHeaders]) together with the
    part of the JavaScript and Node.js runtime those functions drive. *)

From Stdlib Require Import ZArith QArith.
From Stdlib.Strings Require Import Byte.
From Stdlib Require DecimalString.
From stdpp Require Import base option list strings.
Import Stdlib.Strings.Ascii.

Set Warnings "-register-all".

Local Open Scope string_scope.
Local Open Scope list_scope.
Local Open Scope nat_scope.

(** ** JavaScript values

    The codec handles arrays of strings and arrays of two-element arrays;
    reading past the end of an array yields [undefined].  One universe of
    run-time values covers all of them. *)

Inductive jsval : Type :=
  | JUndefined
  | JString (s : string)
  | JArray (elems : list jsval).

(** [a[i]]: an index outside the array reads as [undefined]. *)
Definition array_get (a : list jsval) (i : nat) : jsval :=
  default JUndefined (a !! i).

(** [a[i] = v]: inside the array the slot is overwritten; at or past the
    end the array is extended up to index [i].  The skipped slots read back
    as [undefined]. *)
Definition array_set (a : list jsval) (i : nat) (v : jsval) : list jsval :=
  if decide (i < length a) then <[i := v]> a
  else a ++ replicate (i - length a) JUndefined ++ [v].

(** [Array.prototype.flat()] with the default depth 1: an element that is
    itself an array is replaced by its elements, any other element stays. *)
Definition array_flat (a : list jsval) : list jsval :=
  a ≫= (λ x, match x with JArray elems => elems | _ => [x] end).

(** ** Typed views

    [RawHeaders] is [Array<[key: string, value: string]>]; a flat header
    list is [string[]].  The following give their run-time values. *)

Definition RawHeaders : Type := list (string * string).

Definition js_pair (kv : string * string) : jsval :=
  JArray [JString kv.1; JString kv.2].

Definition js_headers (h : RawHeaders) : list jsval := js_pair <$> h.

Definition js_strings (f : list string) : list jsval := JString <$> f.

(** The flat list of a typed header list: each key, then its value. *)
Definition flat_strings (h : RawHeaders) : list string :=
  h ≫= (λ kv, [kv.1; kv.2]).

(** ** Header codec *)

(** The loop of [pairFlatRawHeaders]:
    [for (let i = 0; i < flatRawHeaders.length; i += 2)
       result[i/2] = [flatRawHeaders[i], flatRawHeaders[i+1]];]
    [fuel] bounds the number of iterations.  [i] is even throughout, so
    the quotient [i / 2] is exact. *)
Fixpoint pair_loop (fuel : nat) (flatRawHeaders : list jsval)
    (i : nat) (result : list jsval) : list jsval :=
  match fuel with
  | O => result
  | S fuel' =>
      if decide (i < length flatRawHeaders) then
        pair_loop fuel' flatRawHeaders (i + 2)
          (array_set result (i / 2)
             (JArray [array_get flatRawHeaders i;
                      array_get flatRawHeaders (i + 1)]))
      else result
  end.

(** [i] grows by two from zero, so [length flatRawHeaders] iterations are
    more than the loop can take. *)
Definition pairFlatRawHeaders (flatRawHeaders : list jsval) : list jsval :=
  pair_loop (length flatRawHeaders) flatRawHeaders 0 [].

Definition flattenPairedRawHeaders (rawHeaders : list jsval) : list jsval :=
  array_flat rawHeaders.

(** Two-at-a-time grouping by structural recursion, used to reason about
    the loop. *)
Fixpoint group2 (l : list jsval) : list jsval :=
  match l with
  | [] => []
  | [k] => [JArray [k; JUndefined]]
  | k :: v :: rest => JArray [k; v] :: group2 rest
  end.

(** ** Thrown errors

    [sendRequest] and the runtime calls it makes either return or throw. *)

Inductive Error : Type :=
  | ERR_INVALID_URL
  | ERR_INVALID_PROTOCOL
  | ERR_INVALID_HTTP_TOKEN
  | ERR_INVALID_CHAR
  | ERR_INVALID_ARG_VALUE
  | ERR_HTTP_HEADERS_SENT
  | ERR_STREAM_PUSH_AFTER_EOF
  | AbortError
  | TransportError (code : string).

Inductive result (A : Type) : Type :=
  | Ok (a : A)
  | Throw (e : Error).

Arguments Ok {A} a.
Arguments Throw {A} e.

Definition bind {A B : Type} (r : result A) (k : A → result B) : result B :=
  match r with
  | Ok a => k a
  | Throw e => Throw e
  end.

Notation "'do' x <- r ; k" := (bind r (λ x, k))
  (at level 10, x name, r at level 100, k at level 200,
   format "'[v' 'do'  x  <-  r ; '/' k ']'").

(** ** ASCII helpers *)

Definition is_upper (c : ascii) : bool :=
  (65 <=? nat_of_ascii c) && (nat_of_ascii c <=? 90).

Definition is_lower (c : ascii) : bool :=
  (97 <=? nat_of_ascii c) && (nat_of_ascii c <=? 122).

Definition is_digit (c : ascii) : bool :=
  (48 <=? nat_of_ascii c) && (nat_of_ascii c <=? 57).

Definition is_alpha (c : ascii) : bool := is_upper c || is_lower c.

Definition lower_ascii (c : ascii) : ascii :=
  if is_upper c then ascii_of_nat (nat_of_ascii c + 32) else c.

Definition upper_ascii (c : ascii) : ascii :=
  if is_lower c then ascii_of_nat (nat_of_ascii c - 32) else c.

Fixpoint map_string (f : ascii → ascii) (s : string) : string :=
  match s with
  | EmptyString => EmptyString
  | String c s' => String (f c) (map_string f s')
  end.

(** [toLowerCase] and [toUpperCase] on the ASCII range. *)
Definition toLowerCase : string → string := map_string lower_ascii.
Definition toUpperCase : string → string := map_string upper_ascii.

(** ** URL

    [new URL(input)] with no base, as far as the scheme: the scheme start
    state and the scheme state of the URL parser.  The text after the colon
    is kept unparsed; the parser rejects some of it (an empty host, a bad
    port), which this model accepts. *)

Record URL : Type := {
  scheme : string;
  remainder : string
}.

(** A C0 control or space. *)
Definition is_c0_or_space (c : ascii) : bool := nat_of_ascii c <=? 32.

Definition is_tab_or_newline (c : ascii) : bool :=
  (nat_of_ascii c =? 9) || (nat_of_ascii c =? 10) || (nat_of_ascii c =? 13).

Fixpoint drop_while (p : ascii → bool) (l : list ascii) : list ascii :=
  match l with
  | [] => []
  | c :: l' => if p c then drop_while p l' else l
  end.

Definition url_preprocess (input : string) : list ascii :=
  let chars := String.list_ascii_of_string input in
  let chars := drop_while is_c0_or_space chars in
  let chars := rev (drop_while is_c0_or_space (rev chars)) in
  filter (λ c, is_tab_or_newline c = false) chars.

Definition is_scheme_char (c : ascii) : bool :=
  is_alpha c || is_digit c
  || (nat_of_ascii c =? 43) || (nat_of_ascii c =? 45) || (nat_of_ascii c =? 46).

Fixpoint scheme_state (buffer : list ascii) (input : list ascii)
    : option (list ascii * list ascii) :=
  match input with
  | [] => None
  | c :: rest =>
      if is_scheme_char c then scheme_state (buffer ++ [lower_ascii c]) rest
      else if (nat_of_ascii c =? 58) then Some (buffer, rest)
      else None
  end.

Definition scheme_start_state (input : list ascii)
    : option (list ascii * list ascii) :=
  match input with
  | c :: rest => if is_alpha c then scheme_state [lower_ascii c] rest else None
  | [] => None
  end.

Definition URL_new (input : string) : result URL :=
  match scheme_start_state (url_preprocess input) with
  | Some (buffer, rest) =>
      Ok {| scheme := String.string_of_list_ascii buffer;
            remainder := String.string_of_list_ascii rest |}
  | None => Throw ERR_INVALID_URL
  end.

(** The [protocol] getter: the scheme followed by a colon. *)
Definition protocol (u : URL) : string := scheme u +:+ ":".

(** ** Request definition and options *)

Definition bytes : Type := list byte.

Record RequestDefinition : Type := {
  method : string;
  url : string;
  headers : RawHeaders;
  rawBody : option bytes
}.

(** An [AbortSignal] that has not fired when [sendRequest] is called. *)
Inductive AbortSignal : Type := Signal.

Record RequestOptions : Type := {
  abortSignal : option AbortSignal
}.

(** ** Stream events *)

Inductive ResponseStreamEvents : Type :=
  | RequestStart (startTime : Z) (timestamp : Q)
  | ResponseHead (statusCode : N) (statusMessage : option string)
      (headers : list jsval) (timestamp : Q)
  | ResponseBodyPart (rawBody : bytes) (timestamp : Q)
  | ResponseEnd (timestamp : Q).

(** ** The readable side: an object-mode [stream.Readable]

    [emitted] records, in order, what the stream hands to its consumer:
    pushed objects, the end of the stream, an error.  The producer pushes
    whatever the consumer's pace, so an object counts as emitted when it is
    pushed. *)

Inductive Emission : Type :=
  | Emit (event : ResponseStreamEvents)
  | EndOfStream
  | StreamError (err : Error).

Module Readable.

Record t : Type := {
  emitted : list Emission;
  ended : bool;
  destroyed : bool
}.

(** [new stream.Readable({ objectMode: true, read() {} })] *)
Definition new : t :=
  {| emitted := []; ended := false; destroyed := false |}.

(** [stream.destroy(err)]: the first call emits the error, later calls do
    nothing. *)
Definition destroy (s : t) (err : Error) : t :=
  if destroyed s then s
  else {| emitted := emitted s ++ [StreamError err];
          ended := ended s;
          destroyed := true |}.

(** [stream.push(obj)]: after the end of the stream the push is an error
    that destroys the stream; on a destroyed stream it is dropped. *)
Definition push (s : t) (event : ResponseStreamEvents) : t :=
  if ended s then destroy s ERR_STREAM_PUSH_AFTER_EOF
  else if destroyed s then s
  else {| emitted := emitted s ++ [Emit event];
          ended := false;
          destroyed := false |}.

(** [stream.push(null)]: the end of the stream. *)
Definition push_null (s : t) : t :=
  if ended s then s
  else {| emitted := if destroyed s then emitted s
                     else emitted s ++ [EndOfStream];
          ended := true;
          destroyed := destroyed s |}.

End Readable.

(** ** The transport: [http.request] / [https.request] and [ClientRequest] *)

Inductive Transport : Type :=
  | http
  | https.

(** The protocol each module's default agent accepts. *)
Definition agent_protocol (module : Transport) : string :=
  match module with
  | http => "http:"
  | https => "https:"
  end.

Module ClientRequest.

Record t : Type := {
  module : Transport;
  method : string;
  path : string;
  signal : option AbortSignal;
  (** headers held by the request object itself (the default [Host]) *)
  outHeaders : RawHeaders;
  shouldKeepAlive : bool;
  useChunkedEncodingByDefault : bool;
  _contentLength : option N;
  _removedConnection : bool;
  _removedContLen : bool;
  _removedTE : bool;
  (** the serialized request line and header block, once stored *)
  _header : option string;
  (** body chunks handed over for sending, before any transfer coding *)
  written : list bytes;
  finished : bool;
  aborted : bool;
  destroyed : bool
}.

Definition set_removed (r : t) (conn contLen te : bool) : t :=
  {| module := module r; method := method r; path := path r;
     signal := signal r; outHeaders := outHeaders r;
     shouldKeepAlive := shouldKeepAlive r;
     useChunkedEncodingByDefault := useChunkedEncodingByDefault r;
     _contentLength := _contentLength r;
     _removedConnection := conn;
     _removedContLen := contLen;
     _removedTE := te;
     _header := _header r; written := written r; finished := finished r;
     aborted := aborted r; destroyed := destroyed r |}.

Definition set_outHeaders (r : t) (h : RawHeaders) : t :=
  {| module := module r; method := method r; path := path r;
     signal := signal r; outHeaders := h;
     shouldKeepAlive := shouldKeepAlive r;
     useChunkedEncodingByDefault := useChunkedEncodingByDefault r;
     _contentLength := _contentLength r;
     _removedConnection := _removedConnection r;
     _removedContLen := _removedContLen r;
     _removedTE := _removedTE r;
     _header := _header r; written := written r; finished := finished r;
     aborted := aborted r; destroyed := destroyed r |}.

Definition set_header (r : t) (h : string) : t :=
  {| module := module r; method := method r; path := path r;
     signal := signal r; outHeaders := outHeaders r;
     shouldKeepAlive := shouldKeepAlive r;
     useChunkedEncodingByDefault := useChunkedEncodingByDefault r;
     _contentLength := _contentLength r;
     _removedConnection := _removedConnection r;
     _removedContLen := _removedContLen r;
     _removedTE := _removedTE r;
     _header := Some h; written := written r; finished := finished r;
     aborted := aborted r; destroyed := destroyed r |}.

Definition set_body (r : t) (w : list bytes) (fin : bool) : t :=
  {| module := module r; method := method r; path := path r;
     signal := signal r; outHeaders := outHeaders r;
     shouldKeepAlive := shouldKeepAlive r;
     useChunkedEncodingByDefault := useChunkedEncodingByDefault r;
     _contentLength := _contentLength r;
     _removedConnection := _removedConnection r;
     _removedContLen := _removedContLen r;
     _removedTE := _removedTE r;
     _header := _header r; written := w; finished := fin;
     aborted := aborted r; destroyed := destroyed r |}.

Definition set_state (r : t) (ab de : bool) : t :=
  {| module := module r; method := method r; path := path r;
     signal := signal r; outHeaders := outHeaders r;
     shouldKeepAlive := shouldKeepAlive r;
     useChunkedEncodingByDefault := useChunkedEncodingByDefault r;
     _contentLength := _contentLength r;
     _removedConnection := _removedConnection r;
     _removedContLen := _removedContLen r;
     _removedTE := _removedTE r;
     _header := _header r; written := written r; finished := finished r;
     aborted := ab; destroyed := de |}.

(** [request.removeHeader(name)]: refused once the header block is
    stored; otherwise the name is dropped from the request's own headers
    and, for the three names below, its automatic synthesis is switched
    off. *)
Definition removeHeader (r : t) (name : string) : result t :=
  match _header r with
  | Some _ => Throw ERR_HTTP_HEADERS_SENT
  | None =>
      let key := toLowerCase name in
      let r :=
        if String.eqb key "connection" then
          set_removed r true (_removedContLen r) (_removedTE r)
        else if String.eqb key "content-length" then
          set_removed r (_removedConnection r) true (_removedTE r)
        else if String.eqb key "transfer-encoding" then
          set_removed r (_removedConnection r) (_removedContLen r) true
        else r in
      Ok (set_outHeaders r
            (filter (λ kv, String.eqb (toLowerCase kv.1) key = false)
               (outHeaders r)))
  end.

(** [request.end(data)] and [request.end()] *)
Definition end_ (r : t) (data : option bytes) : t :=
  match data with
  | Some chunk => set_body r (written r ++ [chunk]) true
  | None => set_body r (written r) true
  end.

(** [request.destroy()] *)
Definition destroy (r : t) : t := set_state r (aborted r) true.

(** [request.abort()] *)
Definition abort (r : t) : t :=
  if aborted r then r else destroy (set_state r true (destroyed r)).

End ClientRequest.

(** Which headers of the supplied list the header writer has seen. *)
Record HeaderState : Type := {
  connection : bool;
  contLen : bool;
  te : bool;
  trailer : bool
}.

Definition matchHeader (state : HeaderState) (field : string) : HeaderState :=
  let key := toLowerCase field in
  {| connection := connection state || String.eqb key "connection";
     contLen := contLen state || String.eqb key "content-length";
     te := te state || String.eqb key "transfer-encoding";
     trailer := trailer state || String.eqb key "trailer" |}.

Definition CRLF : string :=
  String (ascii_of_nat 13) (String (ascii_of_nat 10) "").

Definition header_line (key value : string) : string :=
  key +:+ ": " +:+ value +:+ CRLF.

(** The response object handed to ['response'] listeners. *)
Record IncomingMessage : Type := {
  statusCode : N;
  statusMessage : option string;
  rawHeaders : list string
}.

(** What a settled or pending [Promise] is. *)
Inductive PromiseState : Type :=
  | Pending
  | Fulfilled
  | Rejected.

(** Everything one [sendRequest] call owns: the request object, the promise
    that waits for the response, whether the listeners on the abort signal
    and on the response are registered, and the stream it returned. *)
Record Exchange : Type := {
  request : ClientRequest.t;
  abortListener : bool;
  promise : PromiseState;
  responseListeners : bool;
  resultsStream : Readable.t
}.

Definition with_request (x : Exchange) (r : ClientRequest.t) : Exchange :=
  {| request := r; abortListener := abortListener x; promise := promise x;
     responseListeners := responseListeners x;
     resultsStream := resultsStream x |}.

Definition with_promise (x : Exchange) (p : PromiseState) : Exchange :=
  {| request := request x; abortListener := abortListener x; promise := p;
     responseListeners := responseListeners x;
     resultsStream := resultsStream x |}.

Definition with_stream (x : Exchange) (s : Readable.t) : Exchange :=
  {| request := request x; abortListener := abortListener x;
     promise := promise x; responseListeners := responseListeners x;
     resultsStream := s |}.

Definition with_responseListeners (x : Exchange) : Exchange :=
  {| request := request x; abortListener := abortListener x;
     promise := promise x; responseListeners := true;
     resultsStream := resultsStream x |}.

(** What the runtime delivers to the listeners [sendRequest] registers.
    Each is delivered from its own turn of the event loop, so the promise
    reactions it causes run before the next one; [now] is the reading of
    [performance.now()] in that turn. *)
Inductive Input : Type :=
  | SignalAbort
  | RequestError (err : Error)
  | RequestResponse (response : IncomingMessage) (now : Q)
  | ResponseData (data : bytes) (now : Q)
  | ResponseEnded (now : Q)
  | ResponseError (err : Error).

From stdpp Require Import gmap.
From Stdlib Require DecimalPos DecimalN.

(** ** The fresh Chrome interceptor: its registry of launched browsers

    The interceptor keeps one module-level dictionary, [browsers], from
    proxy ports to the browsers it launched.  A port is a property key: a
    number is looked up under its decimal string. *)

Module FreshChrome.

(** An entry of the launcher's list of available browsers. *)
Record Browser : Type := {
  name : string
}.

(** A launched browser: the pid of its process ([undefined] when the
    process could not be spawned) and the identity of the process object
    whose ['exit'] event is listened to. *)
Record BrowserInstance : Type := {
  pid : option N;
  process : nat
}.

Inductive ProxyPort : Type :=
  | PortNumber (n : N)
  | PortString (s : string).

(** The string a number is converted to, as a property key and in a
    template string: its decimal digits (for the integers below 10^21,
    which covers every port). *)
Definition number_to_string (n : N) : string :=
  DecimalString.NilZero.string_of_uint (N.to_uint n).

Definition property_key (proxyPort : ProxyPort) : string :=
  match proxyPort with
  | PortNumber n => number_to_string n
  | PortString s => s
  end.

(** The dictionary, and the [once('exit')] listeners [activate] has
    registered: the process listened to and the key the listener deletes. *)
Record State : Type := {
  browsers : gmap string BrowserInstance;
  exitListeners : list (nat * string)
}.

(** [!!pid] *)
Definition pid_truthy (b : BrowserInstance) : bool :=
  match pid b with
  | Some n => negb (n =? 0)%N
  | None => false
  end.

(** [browsers[proxyPort] != null && !!browsers[proxyPort].pid] *)
Definition isActive (st : State) (proxyPort : ProxyPort) : bool :=
  match browsers st !! property_key proxyPort with
  | Some b => pid_truthy b
  | None => false
  end.

(** lodash's [intersection] of two arrays: the values of the first that
    the second includes, each once, in the order of the first; it stops
    when the result is as long as the shorter array. *)
Fixpoint intersection_loop (maxLength : nat) (array others result : list string)
    : list string :=
  match array with
  | [] => result
  | value :: rest =>
      if negb (length result <? maxLength) then result
      else if bool_decide (value ∈ result) then
        intersection_loop maxLength rest others result
      else if bool_decide (value ∈ others) then
        intersection_loop maxLength rest others (result ++ [value])
      else intersection_loop maxLength rest others result
  end.

Definition intersection (array others : list string) : list string :=
  intersection_loop (min (length array) (length others)) array others [].

(** [getChromeBrowserName], once the available browsers are known:
    [_(browsers).map(b => b.name).intersection(['chrome', 'chromium'])
       .value()[0]] *)
Definition getChromeBrowserName (available : list Browser) : option string :=
  intersection (name <$> available) ["chrome"; "chromium"] !! 0.

(** [!!(await getChromeBrowserName(config))]: a string is truthy unless
    empty. *)
Definition isActivable (available : list Browser) : bool :=
  match getChromeBrowserName available with
  | Some n => negb (String.eqb n "")
  | None => false
  end.

Record HtkConfig : Type := {
  configPath : string;
  certPath : string
}.

Record LaunchOptions : Type := {
  browser : string;
  proxy : string;
  noProxy : list string;
  options : list string
}.

(** A started warning-hiding server. *)
Record HideChromeWarningServer : Type := {
  hideWarningUrl : string;
  host : string
}.

(** [browsers[proxyPort] = browser;
     browser.process.once('exit', () => { delete browsers[proxyPort]; });] *)
Definition register (st : State) (proxyPort : N) (b : BrowserInstance)
    : State :=
  {| browsers := <[number_to_string proxyPort := b]> (browsers st);
     exitListeners :=
       exitListeners st ++ [(process b, number_to_string proxyPort)] |}.

(** The ['exit'] event of a process: its listeners run once, in the order
    of registration, each deleting the entry of its key. *)
Definition on_exit (st : State) (exited : nat) : State :=
  {| browsers :=
       foldl (λ m l, if bool_decide (l.1 = exited) then delete l.2 m else m)
         (browsers st) (exitListeners st);
     exitListeners :=
       filter (λ l, l.1 ≠ exited) (exitListeners st) |}.

(** How a call of [activate] ends: it returned at once, one of its awaited
    steps was rejected, or it launched a browser and registered it. *)
Inductive Activation : Type :=
  | AlreadyActive
  | Failed
  | Activated (b : BrowserInstance) (st : State).

Section Activate.

(** The collaborators [activate] awaits; [None] stands for a rejection. *)
Variable readFile : string → option string.
Variable generateSPKIFingerprint : string → option string.
Variable startHideWarningServer : string → option HideChromeWarningServer.
Variable getAvailableBrowsers : string → option (list Browser).
Variable launchBrowser : string → LaunchOptions → string → option BrowserInstance.
Variable hideWarningCompleted : bool.
Variable hideWarningStopped : bool.

(** The options [activate] launches the browser with. *)
Definition launchOptions (proxyPort : N) (chromeName : option string)
    (server : HideChromeWarningServer) (spkiFingerprint : string)
    : LaunchOptions :=
  {| browser :=
       match chromeName with
       | Some n => if String.eqb n "" then "chrome" else n
       | None => "chrome"
       end;
     proxy := "https://127.0.0.1:" +:+ number_to_string proxyPort;
     noProxy := ["<-loopback>"; host server];
     options :=
       ["--ignore-certificate-errors-spki-list=" +:+ spkiFingerprint] |}.

(** [activate(proxyPort)], with nothing else delivered between its
    awaits, up to the registration of the browser (the closing delay
    changes nothing). *)
Definition activate (config : HtkConfig) (st : State) (proxyPort : N)
    : Activation :=
  if isActive st (PortNumber proxyPort) then AlreadyActive
  else
    match readFile (certPath config) with
    | None => Failed
    | Some certificatePem =>
    match generateSPKIFingerprint certificatePem with
    | None => Failed
    | Some spkiFingerprint =>
    match startHideWarningServer "https://amiusing.httptoolkit.tech" with
    | None => Failed
    | Some hideWarningServer =>
    match getAvailableBrowsers (configPath config) with
    | None => Failed
    | Some available =>
    match launchBrowser (hideWarningUrl hideWarningServer)
            (launchOptions proxyPort (getChromeBrowserName available)
               hideWarningServer spkiFingerprint)
            (configPath config) with
    | None => Failed
    | Some b =>
        if hideWarningCompleted && hideWarningStopped
        then Activated b (register st proxyPort b)
        else Failed
    end end end end end.

End Activate.

(** [deactivate(proxyPort)], up to its await: the browser it stops and
    whose exit it waits for, if any.  The dictionary is not touched. *)
Definition deactivate (st : State) (proxyPort : ProxyPort)
    : option BrowserInstance :=
  if isActive st proxyPort then browsers st !! property_key proxyPort
  else None.

(** [deactivateAll()]: [deactivate] on every key of the dictionary (listed
    here in the order of the map, which the result does not depend on
    beyond the order of the list). *)
Definition deactivateAll (st : State) : list BrowserInstance :=
  omap (λ key, deactivate st (PortString key))
    (map_to_list (browsers st)).*1.

End FreshChrome.

(** [(url.protocol === 'https' ? https : http)] *)
Definition select_transport (url : URL) : Transport :=
  if String.eqb (protocol url) "https" then https else http.

Section Transmitter.

(** Parts of the transport that the sender only passes through: the request
    target and the default [Host] derived from the URL, the validity checks
    on tokens and header values, and whether the agent keeps connections
    alive. *)
Variable url_path : URL → string.
Variable url_host : URL → string.
Variable checkIsHttpToken : string → bool.
Variable checkInvalidHeaderChar : string → bool.
Variable agentKeepAlive : bool.

Definition usesChunkedEncodingByDefault (method : string) : bool :=
  negb (String.eqb method "GET" || String.eqb method "HEAD"
        || String.eqb method "DELETE" || String.eqb method "OPTIONS"
        || String.eqb method "TRACE" || String.eqb method "CONNECT").

(** [module.request(input, { method, signal })] with a string [input]. *)
Definition module_request (module : Transport) (input : string)
    (method : string) (signal : option AbortSignal)
    : result ClientRequest.t :=
  do u <- URL_new input;
  if negb (String.eqb (protocol u) (agent_protocol module)) then
    Throw ERR_INVALID_PROTOCOL
  else if negb (String.eqb method "") && negb (checkIsHttpToken method) then
    Throw ERR_INVALID_HTTP_TOKEN
  else
    let method := if String.eqb method "" then "GET" else toUpperCase method in
    Ok {| ClientRequest.module := module;
          ClientRequest.method := method;
          ClientRequest.path := url_path u;
          ClientRequest.signal := signal;
          ClientRequest.outHeaders := [("Host", url_host u)];
          ClientRequest.shouldKeepAlive := agentKeepAlive;
          ClientRequest.useChunkedEncodingByDefault :=
            usesChunkedEncodingByDefault method;
          ClientRequest._contentLength := None;
          ClientRequest._removedConnection := false;
          ClientRequest._removedContLen := false;
          ClientRequest._removedTE := false;
          ClientRequest._header := None;
          ClientRequest.written := [];
          ClientRequest.finished := false;
          ClientRequest.aborted := false;
          ClientRequest.destroyed := false |}.

(** The loop of [_storeHeader] over a flat [[k, v, k, v, ...]] array: each
    pair is validated, appended as one line and noted in the state.  Any
    other shape of argument throws in this model. *)
Fixpoint processHeaders (state : HeaderState) (header : string)
    (headers : list jsval) : result (HeaderState * string) :=
  match headers with
  | [] => Ok (state, header)
  | JString key :: JString value :: rest =>
      if negb (checkIsHttpToken key) then Throw ERR_INVALID_HTTP_TOKEN
      else if checkInvalidHeaderChar value then Throw ERR_INVALID_CHAR
      else processHeaders (matchHeader state key)
             (header +:+ header_line key value) rest
  | _ => Throw ERR_INVALID_ARG_VALUE
  end.

(** [request._storeHeader(firstLine, headers)]: the request line, the
    supplied headers, then the headers the transport adds by itself unless
    they were supplied or their synthesis was removed, then the blank
    line. *)
Definition _storeHeader (r : ClientRequest.t) (firstLine : string)
    (headers : list jsval) : result ClientRequest.t :=
  do sh <- processHeaders
             {| connection := false; contLen := false;
                te := false; trailer := false |} firstLine headers;
  let state := sh.1 in
  let header := sh.2 in
  let header :=
    if ClientRequest._removedConnection r || connection state then header
    else if ClientRequest.shouldKeepAlive r then
      header +:+ "Connection: keep-alive" +:+ CRLF
    else header +:+ "Connection: close" +:+ CRLF in
  let header :=
    if contLen state || te state then header
    else if negb (ClientRequest.useChunkedEncodingByDefault r) then header
    else
      match (if trailer state || ClientRequest._removedContLen r then None
             else ClientRequest._contentLength r) with
      | Some n =>
          header +:+ "Content-Length: "
                 +:+ DecimalString.NilZero.string_of_uint (N.to_uint n)
                 +:+ CRLF
      | None =>
          if ClientRequest._removedTE r then header
          else header +:+ "Transfer-Encoding: chunked" +:+ CRLF
      end in
  Ok (ClientRequest.set_header r (header +:+ CRLF)).

(** ** [sendRequest]

    The synchronous part, up to [return resultsStream].  [Date_now] and
    [performance_now] are the two clock readings taken for the
    [request-start] event. *)
Definition sendRequest (requestDefn : RequestDefinition)
    (options : RequestOptions) (Date_now : Z) (performance_now : Q)
    : result Exchange :=
  do url_ <- URL_new (url requestDefn);
  do request <- module_request (select_transport url_)
                  (url requestDefn) (method requestDefn)
                  (abortSignal options);
  let abortListener := bool_decide (is_Some (abortSignal options)) in
  do request <- ClientRequest.removeHeader request "connection";
  do request <- ClientRequest.removeHeader request "transfer-encoding";
  do request <- ClientRequest.removeHeader request "content-length";
  do request <- _storeHeader request
                  (ClientRequest.method request +:+ " "
                   +:+ ClientRequest.path request +:+ " HTTP/1.1" +:+ CRLF)
                  (flattenPairedRawHeaders (js_headers (headers requestDefn)));
  let request :=
    match rawBody requestDefn with
    | Some body =>
        if negb (length body =? 0) then ClientRequest.end_ request (Some body)
        else ClientRequest.end_ request None
    | None => ClientRequest.end_ request None
    end in
  let resultsStream := Readable.new in
  let resultsStream :=
    Readable.push resultsStream (RequestStart Date_now performance_now) in
  Ok {| request := request;
        abortListener := abortListener;
        promise := Pending;
        responseListeners := false;
        resultsStream := resultsStream |}.


(** ** The asynchronous part: the listeners [sendRequest] registered *)

(** [.catch((error) => { resultsStream.destroy(error); request.destroy(); })] *)
Definition on_rejected (x : Exchange) (error : Error) : Exchange :=
  let x := with_stream x (Readable.destroy (resultsStream x) error) in
  with_request x (ClientRequest.destroy (request x)).

(** [request.on('error', reject)]: only a pending promise is settled. *)
Definition reject (x : Exchange) (error : Error) : Exchange :=
  match promise x with
  | Pending => on_rejected (with_promise x Rejected) error
  | _ => x
  end.

(** [.then((response) => { ... })]: the head is pushed and the three
    listeners on the response are registered. *)
Definition on_fulfilled (x : Exchange) (response : IncomingMessage) (now : Q)
    : Exchange :=
  let x :=
    with_stream x
      (Readable.push (resultsStream x)
         (ResponseHead (statusCode response) (statusMessage response)
            (pairFlatRawHeaders (js_strings (rawHeaders response))) now)) in
  with_responseListeners x.

(** [request.on('response', resolve)] *)
Definition resolve (x : Exchange) (response : IncomingMessage) (now : Q)
    : Exchange :=
  match promise x with
  | Pending => on_fulfilled (with_promise x Fulfilled) response now
  | _ => x
  end.

(** The ['abort'] event of the signal.  The transport's own listener (the
    [signal] option) destroys the request with an [AbortError];
    [sendRequest]'s listener calls [request.abort()]; the request then emits
    the error, unless it had been destroyed before. *)
Definition on_abort (x : Exchange) : Exchange :=
  match ClientRequest.signal (request x) with
  | None => x
  | Some _ =>
      let live := negb (ClientRequest.destroyed (request x)) in
      let x := with_request x (ClientRequest.destroy (request x)) in
      let x :=
        if abortListener x
        then with_request x (ClientRequest.abort (request x)) else x in
      if live then reject x AbortError else x
  end.

(** One delivery.  An event with no listener registered is lost. *)
Definition handle (x : Exchange) (input : Input) : Exchange :=
  match input with
  | SignalAbort => on_abort x
  | RequestError err => reject x err
  | RequestResponse response now => resolve x response now
  | ResponseData data now =>
      if responseListeners x then
        with_stream x
          (Readable.push (resultsStream x) (ResponseBodyPart data now))
      else x
  | ResponseEnded now =>
      if responseListeners x then
        let x :=
          with_stream x (Readable.push (resultsStream x) (ResponseEnd now)) in
        with_stream x (Readable.push_null (resultsStream x))
      else x
  | ResponseError err =>
      if responseListeners x then
        with_stream x (Readable.destroy (resultsStream x) err)
      else x
  end.

Definition run (x : Exchange) (inputs : list Input) : Exchange :=
  fold_left handle inputs x.

(** ** Vocabulary of the properties *)

(** The lines the supplied headers take on the wire, in order. *)
Fixpoint header_lines (h : RawHeaders) : string :=
  match h with
  | [] => ""
  | kv :: rest => header_line kv.1 kv.2 +:+ header_lines rest
  end.

(** The request line [sendRequest] builds. *)
Definition request_line (r : ClientRequest.t) : string :=
  ClientRequest.method r +:+ " " +:+ ClientRequest.path r
    +:+ " HTTP/1.1" +:+ CRLF.

(** The events a response object emits. *)
Definition is_response_event (input : Input) : bool :=
  match input with
  | ResponseData _ _ | ResponseEnded _ | ResponseError _ => true
  | _ => false
  end.

(** What the transport promises about a response: its ['end'] is the last
    event it emits. *)
Fixpoint end_is_final (inputs : list Input) : bool :=
  match inputs with
  | [] => true
  | ResponseEnded _ :: rest =>
      forallb (λ input, negb (is_response_event input)) rest
  | _ :: rest => end_is_final rest
  end.


Definition is_head (e : Emission) : bool :=
  match e with
  | Emit (ResponseHead _ _ _ _) => true
  | _ => false
  end.

Definition head_emitted (x : Exchange) : bool :=
  existsb is_head (Readable.emitted (resultsStream x)).






(** The deliveries of a response body, chunk by chunk, and the body
    parts they are expected to become. *)
Definition data_deliveries (chunks : list (bytes * Q)) : list Input :=
  (λ c, ResponseData c.1 c.2) <$> chunks.

Definition body_parts (chunks : list (bytes * Q)) : list Emission :=
  (λ c, Emit (ResponseBodyPart c.1 c.2)) <$> chunks.

Definition is_start (e : Emission) : bool :=
  match e with
  | Emit (RequestStart _ _) => true
  | _ => false
  end.

(** Neither a start event nor a head. *)
Definition is_later_event (e : Emission) : Prop :=
  is_start e = false ∧ is_head e = false.

(** What holds of an exchange whatever is delivered to it: before the
    promise settles the stream holds the start event alone; after a
    rejection, the start event and one error; after a fulfilment, the start
    event, the head, and then neither a start event nor a head. *)
Inductive outline (start : Z) (now : Q)
    : PromiseState → bool → Readable.t → Prop :=
  | outline_awaiting :
      outline start now Pending false
        {| Readable.emitted := [Emit (RequestStart start now)];
           Readable.ended := false; Readable.destroyed := false |}
  | outline_refused err ended :
      outline start now Rejected false
        {| Readable.emitted :=
             [Emit (RequestStart start now); StreamError err];
           Readable.ended := ended; Readable.destroyed := true |}
  | outline_answered code msg hdrs now' rest ended destroyed :
      Forall is_later_event rest →
      outline start now Fulfilled true
        {| Readable.emitted :=
             Emit (RequestStart start now)
             :: Emit (ResponseHead code msg hdrs now') :: rest;
           Readable.ended := ended; Readable.destroyed := destroyed |}.

(** A launched browser, an empty registry and collaborators that all
    succeed, for worked examples of the interceptor. *)
Definition example_browser : FreshChrome.BrowserInstance :=
  {| FreshChrome.pid := Some 4242%N; FreshChrome.process := 1 |}.

Definition example_registry : FreshChrome.State :=
  {| FreshChrome.browsers := ∅; FreshChrome.exitListeners := [] |}.

Definition example_config : FreshChrome.HtkConfig :=
  {| FreshChrome.configPath := "/config"; FreshChrome.certPath := "/ca.pem" |}.

Definition example_activate (st : FreshChrome.State) (proxyPort : N)
    : FreshChrome.Activation :=
  FreshChrome.activate
    (λ _, Some "PEM") (λ _, Some "fingerprint")
    (λ url, Some {| FreshChrome.hideWarningUrl := "http://127.0.0.1:9000/";
                    FreshChrome.host := "127.0.0.1:9000" |})
    (λ _, Some [{| FreshChrome.name := "firefox" |};
                {| FreshChrome.name := "chromium" |};
                {| FreshChrome.name := "chrome" |}])
    (λ _ _ _, Some example_browser) true true
    example_config st proxyPort.

(** ** A concrete transport, for worked examples

    The token and header-value checks on ASCII text, and the request
    target and host of a URL of the plain form [scheme://host/path]. *)

Definition is_token_char (c : ascii) : bool :=
  is_alpha c || is_digit c
  || existsb (Nat.eqb (nat_of_ascii c))
       [33; 35; 36; 37; 38; 39; 42; 43; 45; 46; 94; 95; 96; 124; 126].

Definition example_checkIsHttpToken (s : string) : bool :=
  negb (String.eqb s "")
  && forallb is_token_char (String.list_ascii_of_string s).

Definition example_checkInvalidHeaderChar (s : string) : bool :=
  existsb
    (λ c, ((nat_of_ascii c <? 32) && negb (nat_of_ascii c =? 9))
          || (nat_of_ascii c =? 127))
    (String.list_ascii_of_string s).

Definition is_host_end (c : ascii) : bool :=
  (nat_of_ascii c =? 47) || (nat_of_ascii c =? 63) || (nat_of_ascii c =? 35).

Fixpoint take_until (p : ascii → bool) (l : list ascii) : list ascii :=
  match l with
  | [] => []
  | c :: l' => if p c then [] else c :: take_until p l'
  end.

Definition after_slashes (u : URL) : list ascii :=
  drop 2 (String.list_ascii_of_string (remainder u)).

Definition example_url_host (u : URL) : string :=
  String.string_of_list_ascii (take_until is_host_end (after_slashes u)).

Definition example_url_path (u : URL) : string :=
  match drop_while (λ c, negb (is_host_end c)) (after_slashes u) with
  | [] => "/"
  | c :: rest =>
      if nat_of_ascii c =? 47 then
        String.string_of_list_ascii
          (c :: take_until (λ c, nat_of_ascii c =? 35) rest)
      else "/"
  end.

Definition example_request : RequestDefinition :=
  {| method := "post";
     url := "http://example.com/upload?x=1";
     headers := [("X-A", "1"); ("X-A", "2")];
     rawBody := Some [x68; x69] |}.

Definition example_options : RequestOptions :=
  {| abortSignal := Some Signal |}.

Definition example_response : IncomingMessage :=
  {| statusCode := 200%N;
     statusMessage := Some "OK";
     rawHeaders := ["Set-Cookie"; "a=1"; "Set-Cookie"; "b=2"] |}.

(** * Properties *)

Lemma array_set_end (a : list jsval) (v : jsval) :
  array_set a (length a) v = a ++ [v].
Proof.
  unfold array_set. case_decide; [lia|].
  by rewrite Nat.sub_diag.
Qed.

Lemma group2_drop (l : list jsval) (i : nat) :
  i < length l →
  group2 (drop i l) =
    JArray [array_get l i; array_get l (i + 1)] :: group2 (drop (i + 2) l).
Proof.
  intros Hi. unfold array_get.
  destruct (lookup_lt_is_Some_2 l i Hi) as [k Hk].
  rewrite (drop_S l k i Hk), Hk. simpl.
  replace (i + 2) with (S (S i)) by lia.
  replace (i + 1) with (S i) by lia.
  destruct (l !! S i) as [v|] eqn:Hv.
  - by rewrite (drop_S l v (S i) Hv).
  - apply lookup_ge_None in Hv.
    rewrite (drop_ge l (S i)) by lia.
    rewrite (drop_ge l (S (S i))) by lia. done.
Qed.

Lemma pair_loop_group2 (fuel : nat) (l : list jsval) :
  ∀ (n : nat) (result : list jsval),
    length result = n →
    length l ≤ 2 * n + fuel →
    pair_loop fuel l (2 * n) result = result ++ group2 (drop (2 * n) l).
Proof.
  induction fuel as [|fuel IH]; intros n result Hlen Hfuel; cbn [pair_loop].
  - rewrite drop_ge by lia. by rewrite app_nil_r.
  - case_decide as Hi.
    + assert (Hdiv : 2 * n / 2 = n)
        by (rewrite Nat.mul_comm; apply Nat.div_mul; lia).
      rewrite Hdiv. subst n. rewrite array_set_end.
      rewrite (group2_drop l _ Hi).
      replace (2 * length result + 2) with (2 * S (length result)) by lia.
      rewrite IH; [| rewrite length_app; simpl; lia | lia].
      by rewrite <- app_assoc.
    + rewrite drop_ge by lia. by rewrite app_nil_r.
Qed.

(** The loop is over within [length l] iterations: more fuel changes
    nothing. *)
Lemma pair_loop_enough_fuel (fuel : nat) (l : list jsval) :
  length l ≤ fuel → pair_loop fuel l 0 [] = pair_loop (length l) l 0 [].
Proof.
  intros Hfuel.
  transitivity ([] ++ group2 (drop (2 * 0) l)).
  - apply (pair_loop_group2 fuel l 0 []); [done | lia].
  - symmetry. apply (pair_loop_group2 (length l) l 0 []); [done | lia].
Qed.

Lemma pairFlatRawHeaders_group2 (l : list jsval) :
  pairFlatRawHeaders l = group2 l.
Proof.
  unfold pairFlatRawHeaders.
  apply (pair_loop_group2 (length l) l 0 []); [done | lia].
Qed.

(** ** Header codec *)

Lemma flatten_js_headers (h : RawHeaders) :
  flattenPairedRawHeaders (js_headers h) = js_strings (flat_strings h).
Proof.
  unfold flattenPairedRawHeaders, array_flat, js_headers, js_strings,
    flat_strings.
  induction h as [|[k v] h IH]; [done|].
  rewrite fmap_cons, !bind_cons, fmap_app, IH. done.
Qed.

Lemma group2_flat_strings (h : RawHeaders) :
  group2 (js_strings (flat_strings h)) = js_headers h.
Proof.
  unfold js_strings, flat_strings, js_headers.
  induction h as [|[k v] h IH]; [done|].
  rewrite bind_cons, fmap_app. cbn. by rewrite IH.
Qed.

Lemma group2_flat_strings_odd (h : RawHeaders) (k : string) :
  group2 (js_strings (flat_strings h ++ [k])) =
    js_headers h ++ [JArray [JString k; JUndefined]].
Proof.
  unfold js_strings, flat_strings, js_headers.
  induction h as [|[k' v] h IH]; [done|].
  rewrite bind_cons, <- app_assoc, fmap_app. cbn. by rewrite IH.
Qed.

(** A list of even length is the flat form of a header list, and a list of
    odd length is such a flat form followed by one more string. *)
Lemma even_odd_flat (n : nat) :
  ∀ f : list string,
    (length f = 2 * n →
       ∃ h : RawHeaders, length h = n ∧ f = flat_strings h)
    ∧ (length f = 2 * n + 1 →
       ∃ (h : RawHeaders) (k : string),
         length h = n ∧ f = flat_strings h ++ [k]).
Proof.
  induction n as [|n IH]; intros f; split; intros Hlen.
  - destruct f; [|done]. by exists [].
  - destruct f as [|k [|? ?]]; try done. by exists [], k.
  - destruct f as [|k [|v f]]; simpl in Hlen; try lia.
    destruct (proj1 (IH f)) as (h & Hh & ->); [lia|].
    exists ((k, v) :: h). split; [simpl; lia | done].
  - destruct f as [|k [|v f]]; simpl in Hlen; try lia.
    destruct (proj2 (IH f)) as (h & k' & Hh & ->); [lia|].
    exists ((k, v) :: h), k'. split; [simpl; lia | done].
Qed.

Lemma flat_strings_lookup (h : RawHeaders) (i : nat) (k v : string) :
  h !! i = Some (k, v) →
  flat_strings h !! (2 * i) = Some k ∧ flat_strings h !! (2 * i + 1) = Some v.
Proof.
  revert i. induction h as [|[k' v'] h IH]; intros i Hi; [done|].
  destruct i as [|i].
  - simpl in Hi. by injection Hi as -> ->.
  - simpl in Hi. destruct (IH i Hi) as [Hk Hv].
    replace (2 * S i) with (S (S (2 * i))) by lia.
    replace (S (S (2 * i)) + 1) with (S (S (2 * i + 1))) by lia.
    done.
Qed.

(** C2. Pairing the flattened form of a header list gives the header list
    back, whatever its keys and values: duplicate keys and empty strings
    are entries like any other. *)
Theorem pair_flatten_roundtrip (h : RawHeaders) :
  pairFlatRawHeaders (flattenPairedRawHeaders (js_headers h)) = js_headers h.
Proof.
  rewrite pairFlatRawHeaders_group2, flatten_js_headers.
  apply group2_flat_strings.
Qed.

(** C5. On a flat list of strings of odd length [pairFlatRawHeaders] does
    not fail and checks nothing: it returns the pairs of the leading
    strings followed by one entry made of the last string and [undefined],
    which is none of the input strings. *)
Theorem pair_odd_trailing_undefined (f : list string) (n : nat) :
  length f = 2 * n + 1 →
  ∃ (h : RawHeaders) (k : string),
    f = flat_strings h ++ [k]
    ∧ pairFlatRawHeaders (js_strings f) =
        js_headers h ++ [JArray [JString k; JUndefined]]
    ∧ JUndefined ∉ js_strings f.
Proof.
  intros Hlen.
  destruct (proj2 (even_odd_flat n f) Hlen) as (h & k & _ & ->).
  exists h, k. split; [done|]. split.
  - rewrite pairFlatRawHeaders_group2. apply group2_flat_strings_odd.
  - unfold js_strings. intros Hin.
    apply list_elem_of_fmap in Hin as (s & Hs & _). discriminate.
Qed.

Lemma pair_odd_trailing_undefined_witness :
  ∃ (h : RawHeaders) (k : string),
    ["a"; "b"; "c"] = flat_strings h ++ [k]
    ∧ pairFlatRawHeaders (js_strings ["a"; "b"; "c"]) =
        js_headers h ++ [JArray [JString k; JUndefined]]
    ∧ JUndefined ∉ js_strings ["a"; "b"; "c"].
Proof. apply (pair_odd_trailing_undefined ["a"; "b"; "c"] 1). reflexivity. Defined.

(** C6. A flat list of [2n] strings is paired into exactly [n] entries,
    the [i]-th being the strings at [2i] and [2i+1]; and a header list is
    flattened into each key followed by its value, in order. *)
Theorem pair_and_flatten_shape (f : list string) (n : nat) (h : RawHeaders) :
  length f = 2 * n →
  (length (pairFlatRawHeaders (js_strings f)) = n
   ∧ ∀ i, i < n →
       ∃ k v, f !! (2 * i) = Some k ∧ f !! (2 * i + 1) = Some v
              ∧ pairFlatRawHeaders (js_strings f) !! i
                = Some (JArray [JString k; JString v]))
  ∧ flattenPairedRawHeaders (js_headers h) =
      js_strings (h ≫= (λ kv, [kv.1; kv.2])).
Proof.
  intros Hlen. split; [|apply flatten_js_headers].
  destruct (proj1 (even_odd_flat n f) Hlen) as (h' & Hh' & ->).
  rewrite pairFlatRawHeaders_group2, group2_flat_strings.
  unfold js_headers. split; [by rewrite length_fmap|].
  intros i Hi.
  destruct (lookup_lt_is_Some_2 h' i) as [[k v] Hkv]; [lia|].
  exists k, v. destruct (flat_strings_lookup h' i k v Hkv) as [Hk Hv].
  rewrite list_lookup_fmap, Hkv. done.
Qed.

Lemma pair_and_flatten_shape_witness :
  (length (pairFlatRawHeaders (js_strings ["X-A"; "1"; "X-A"; "2"])) = 2
   ∧ ∀ i, i < 2 →
       ∃ k v, ["X-A"; "1"; "X-A"; "2"] !! (2 * i) = Some k
              ∧ ["X-A"; "1"; "X-A"; "2"] !! (2 * i + 1) = Some v
              ∧ pairFlatRawHeaders (js_strings ["X-A"; "1"; "X-A"; "2"]) !! i
                = Some (JArray [JString k; JString v]))
  ∧ flattenPairedRawHeaders (js_headers [("X-A", "1"); ("X-A", "2")]) =
      js_strings ([("X-A", "1"); ("X-A", "2")] ≫= (λ kv, [kv.1; kv.2])).
Proof.
  apply (pair_and_flatten_shape ["X-A"; "1"; "X-A"; "2"] 2
           [("X-A", "1"); ("X-A", "2")]).
  reflexivity.
Defined.

(** C10. Flattening the pairing of a flat list of strings of even length
    gives that list back. *)
Theorem flatten_pair_roundtrip (f : list string) (n : nat) :
  length f = 2 * n →
  flattenPairedRawHeaders (pairFlatRawHeaders (js_strings f)) = js_strings f.
Proof.
  intros Hlen.
  destruct (proj1 (even_odd_flat n f) Hlen) as (h & _ & ->).
  rewrite pairFlatRawHeaders_group2, group2_flat_strings.
  apply flatten_js_headers.
Qed.

Lemma flatten_pair_roundtrip_witness :
  flattenPairedRawHeaders
    (pairFlatRawHeaders (js_strings ["Host"; "a.example"; "X-A"; ""]))
  = js_strings ["Host"; "a.example"; "X-A"; ""].
Proof.
  apply (flatten_pair_roundtrip ["Host"; "a.example"; "X-A"; ""] 2).
  reflexivity.
Defined.

(** ** Transport selection *)

Lemma append_colon_not_https (s : string) : s +:+ ":" ≠ "https".
Proof.
  intros H.
  do 6 (destruct s as [|? s]; [simpl in H; inversion H|]).
  simpl in H. inversion H.
Qed.

Lemma protocol_not_https (u : URL) : String.eqb (protocol u) "https" = false.
Proof. apply String.eqb_neq, append_colon_not_https. Qed.

(** C1. The comparison [url.protocol === 'https'] never holds, since the
    protocol of a URL ends in a colon: the plain transport is selected for
    every URL, and a request for an [https] URL is then refused by the
    plain transport. *)
Theorem select_transport_always_plain :
  (∀ u : URL, select_transport u = http)
  ∧ URL_new "https://example.com/"
    = Ok {| scheme := "https"; remainder := "//example.com/" |}
  ∧ ∀ options Date_now performance_now,
      sendRequest
        {| method := "GET"; url := "https://example.com/";
           headers := [("Host", "example.com")]; rawBody := None |}
        options Date_now performance_now
      = Throw ERR_INVALID_PROTOCOL.
Proof.
  split; [|split].
  - intros u. unfold select_transport. by rewrite protocol_not_https.
  - reflexivity.
  - reflexivity.
Qed.

(** ** The synchronous part of [sendRequest] *)

Lemma append_assoc (a b c : string) : (a +:+ b) +:+ c = a +:+ (b +:+ c).
Proof.
  induction a as [|ch a IH]; [done|].
  change (String ch ((a +:+ b) +:+ c) = String ch (a +:+ b +:+ c)).
  by rewrite IH.
Qed.

Lemma append_empty_r (a : string) : a +:+ "" = a.
Proof.
  induction a as [|ch a IH]; [done|].
  change (String ch (a +:+ "") = String ch a). by rewrite IH.
Qed.

Lemma bind_Ok {A B : Type} (r : result A) (k : A → result B) (b : B) :
  bind r k = Ok b → ∃ a, r = Ok a ∧ k a = Ok b.
Proof. destruct r as [a|e]; [by exists a | done]. Qed.

Lemma removeHeader_connection (r : ClientRequest.t) :
  ClientRequest._header r = None →
  ClientRequest.removeHeader r "connection" =
    Ok (ClientRequest.set_outHeaders
          (ClientRequest.set_removed r true
             (ClientRequest._removedContLen r) (ClientRequest._removedTE r))
          (filter (λ kv, String.eqb (toLowerCase kv.1) "connection" = false)
             (ClientRequest.outHeaders r))).
Proof. unfold ClientRequest.removeHeader. by intros ->. Qed.

Lemma removeHeader_transfer_encoding (r : ClientRequest.t) :
  ClientRequest._header r = None →
  ClientRequest.removeHeader r "transfer-encoding" =
    Ok (ClientRequest.set_outHeaders
          (ClientRequest.set_removed r (ClientRequest._removedConnection r)
             (ClientRequest._removedContLen r) true)
          (filter
             (λ kv, String.eqb (toLowerCase kv.1) "transfer-encoding" = false)
             (ClientRequest.outHeaders r))).
Proof. unfold ClientRequest.removeHeader. by intros ->. Qed.

Lemma removeHeader_content_length (r : ClientRequest.t) :
  ClientRequest._header r = None →
  ClientRequest.removeHeader r "content-length" =
    Ok (ClientRequest.set_outHeaders
          (ClientRequest.set_removed r (ClientRequest._removedConnection r)
             true (ClientRequest._removedTE r))
          (filter
             (λ kv, String.eqb (toLowerCase kv.1) "content-length" = false)
             (ClientRequest.outHeaders r))).
Proof. unfold ClientRequest.removeHeader. by intros ->. Qed.

(** The header writer appends the supplied headers, in order, and nothing
    else. *)
Lemma processHeaders_lines (h : RawHeaders) :
  ∀ (state state' : HeaderState) (header header' : string),
    processHeaders state header (js_strings (flat_strings h))
      = Ok (state', header') →
    header' = header +:+ header_lines h.
Proof.
  induction h as [|[k v] h IH]; intros state state' header header' H.
  - injection H as _ <-. by rewrite append_empty_r.
  - change (js_strings (flat_strings ((k, v) :: h)))
      with (JString k :: JString v :: js_strings (flat_strings h)) in H.
    cbn [processHeaders] in H.
    destruct (negb (checkIsHttpToken k)); [done|].
    destruct (checkInvalidHeaderChar v); [done|].
    apply IH in H as ->. cbn [header_lines fst snd].
    by rewrite append_assoc.
Qed.

(** With the synthesis of [Connection], [Content-Length] and
    [Transfer-Encoding] removed, the stored block is the request line, the
    supplied headers and the blank line. *)
Lemma storeHeader_removed (r r' : ClientRequest.t) (line : string)
    (h : RawHeaders) :
  ClientRequest._removedConnection r = true →
  ClientRequest._removedContLen r = true →
  ClientRequest._removedTE r = true →
  _storeHeader r line (js_strings (flat_strings h)) = Ok r' →
  r' = ClientRequest.set_header r (line +:+ header_lines h +:+ CRLF).
Proof.
  intros Hconn Hlen Hte. unfold _storeHeader.
  match goal with
  | |- context [processHeaders ?st line ?hs] =>
      destruct (processHeaders st line hs) as [[state header]|] eqn:Hp;
        [apply processHeaders_lines in Hp as ->|done]
  end.
  cbn [bind fst snd]. rewrite Hconn, Hlen, Hte, orb_true_r. cbn [orb].
  destruct (contLen state || te state);
    [|destruct (negb (ClientRequest.useChunkedEncodingByDefault r))];
    rewrite append_assoc; by intros [= <-].
Qed.

Lemma module_request_inv (module : Transport) (input method : string)
    (signal : option AbortSignal) (r : ClientRequest.t) :
  module_request module input method signal = Ok r →
  ClientRequest.module r = module
  ∧ ClientRequest.signal r = signal
  ∧ ClientRequest._header r = None
  ∧ ClientRequest.written r = []
  ∧ ClientRequest.aborted r = false
  ∧ ClientRequest.destroyed r = false.
Proof.
  unfold module_request. intros H.
  apply bind_Ok in H as (u & _ & H).
  destruct (negb (String.eqb (protocol u) (agent_protocol module))); [done|].
  destruct (negb (String.eqb method "") && negb (checkIsHttpToken method));
    [done|].
  by injection H as <-.
Qed.

(** What [sendRequest] has done by the time it returns. *)
Lemma sendRequest_inv d o dn pn x :
  sendRequest d o dn pn = Ok x →
  ClientRequest.module (request x) = http
  ∧ ClientRequest._header (request x) =
      Some (request_line (request x) +:+ header_lines (headers d) +:+ CRLF)
  ∧ ClientRequest.written (request x) =
      match rawBody d with
      | Some body => if negb (length body =? 0) then [body] else []
      | None => []
      end
  ∧ ClientRequest.finished (request x) = true
  ∧ ClientRequest.aborted (request x) = false
  ∧ ClientRequest.destroyed (request x) = false
  ∧ ClientRequest.signal (request x) = abortSignal o
  ∧ abortListener x = bool_decide (is_Some (abortSignal o))
  ∧ promise x = Pending
  ∧ responseListeners x = false
  ∧ resultsStream x =
      {| Readable.emitted := [Emit (RequestStart dn pn)];
         Readable.ended := false;
         Readable.destroyed := false |}.
Proof.
  unfold sendRequest. intros H.
  apply bind_Ok in H as (u & _ & H).
  apply bind_Ok in H as (r0 & Hr0 & H).
  unfold select_transport in Hr0. rewrite protocol_not_https in Hr0.
  apply module_request_inv in Hr0 as (Hmod & Hsig & Hhdr & Hwr & Hab & Hde).
  apply bind_Ok in H as (r1 & Hr1 & H).
  rewrite removeHeader_connection in Hr1 by done. injection Hr1 as <-.
  apply bind_Ok in H as (r2 & Hr2 & H).
  rewrite removeHeader_transfer_encoding in Hr2 by done. injection Hr2 as <-.
  apply bind_Ok in H as (r3 & Hr3 & H).
  rewrite removeHeader_content_length in Hr3 by done. injection Hr3 as <-.
  apply bind_Ok in H as (r4 & Hr4 & H).
  rewrite flatten_js_headers in Hr4.
  apply storeHeader_removed in Hr4; [|done..].
  injection H as <-. subst r4.
  destruct (rawBody d) as [body|]; [destruct (negb (length body =? 0))|];
    cbn; rewrite ?Hwr; repeat split; done.
Qed.

(** C3. Whenever [sendRequest] returns, the block stored for the wire is
    the request line, then one line per supplied header, in the order and
    with the duplicates of [requestDefn.headers], then the blank line:
    neither the [Host] the request object holds nor any [Connection],
    [Content-Length] or [Transfer-Encoding] is added. *)
Theorem header_block_exact d o dn pn x :
  sendRequest d o dn pn = Ok x →
  ClientRequest._header (request x) =
    Some (request_line (request x) +:+ header_lines (headers d) +:+ CRLF).
Proof. intros H. by apply sendRequest_inv in H as (_ & H & _). Qed.

(** C8. Whenever [sendRequest] returns, the request is ended; a body that
    is present and not empty has been handed over as its only chunk, and
    no chunk has been handed over when the body is absent or empty. *)
Theorem body_written_then_ended d o dn pn x :
  sendRequest d o dn pn = Ok x →
  ClientRequest.finished (request x) = true
  ∧ (∀ body, rawBody d = Some body → body ≠ [] →
       ClientRequest.written (request x) = [body])
  ∧ (rawBody d = None ∨ rawBody d = Some [] →
       ClientRequest.written (request x) = []).
Proof.
  intros H. apply sendRequest_inv in H as (_ & _ & Hw & Hf & _).
  split; [done|]. split.
  - intros body Hb Hne. rewrite Hw, Hb. by destruct body.
  - intros [Hb|Hb]; by rewrite Hw, Hb.
Qed.

(** ** The asynchronous part *)

Lemma run_cons (x : Exchange) (input : Input) (inputs : list Input) :
  run x (input :: inputs) = run (handle x input) inputs.
Proof. reflexivity. Qed.

Lemma run_app (x : Exchange) (pre post : list Input) :
  run x (pre ++ post) = run (run x pre) post.
Proof. apply fold_left_app. Qed.

Lemma abort_signal (r : ClientRequest.t) :
  ClientRequest.signal (ClientRequest.abort r) = ClientRequest.signal r.
Proof. unfold ClientRequest.abort. by destruct (ClientRequest.aborted r). Qed.

Lemma abort_aborted (r : ClientRequest.t) :
  ClientRequest.aborted (ClientRequest.abort r) = true.
Proof.
  unfold ClientRequest.abort.
  by destruct (ClientRequest.aborted r) eqn:E.
Qed.

Lemma abort_keeps_destroyed (r : ClientRequest.t) :
  ClientRequest.destroyed r = true →
  ClientRequest.destroyed (ClientRequest.abort r) = true.
Proof.
  unfold ClientRequest.abort. by destruct (ClientRequest.aborted r).
Qed.

Lemma handle_keeps_signal (x : Exchange) (input : Input) :
  ClientRequest.signal (request (handle x input))
    = ClientRequest.signal (request x)
  ∧ abortListener (handle x input) = abortListener x.
Proof.
  destruct x as [r al p l st], input; cbn;
    unfold on_abort, reject, resolve; cbn;
    repeat (case_match; cbn); rewrite ?abort_signal; done.
Qed.

Lemma run_keeps_signal (inputs : list Input) :
  ∀ x : Exchange,
    ClientRequest.signal (request (run x inputs))
      = ClientRequest.signal (request x)
    ∧ abortListener (run x inputs) = abortListener x.
Proof.
  induction inputs as [|input inputs IH]; intros x; [done|].
  rewrite run_cons. destruct (IH (handle x input)) as [-> ->].
  apply handle_keeps_signal.
Qed.



(** Every delivery only adds to what the stream has emitted. *)
Lemma handle_extends (x : Exchange) (input : Input) :
  ∃ more,
    Readable.emitted (resultsStream (handle x input))
      = Readable.emitted (resultsStream x) ++ more.
Proof.
  destruct x as [r al p l [log e de]], input; cbn;
    unfold on_abort, reject, resolve, on_rejected, on_fulfilled,
      Readable.push, Readable.push_null, Readable.destroy; cbn;
    repeat (case_match; cbn);
    try (by exists []; rewrite app_nil_r);
    try (by eexists);
    try (rewrite <- app_assoc; by eexists).
Qed.

Lemma run_extends (inputs : list Input) :
  ∀ x : Exchange,
    ∃ more,
      Readable.emitted (resultsStream (run x inputs))
        = Readable.emitted (resultsStream x) ++ more.
Proof.
  induction inputs as [|input inputs IH]; intros x.
  - exists []. by rewrite app_nil_r.
  - rewrite run_cons. destruct (IH (handle x input)) as [more ->].
    destruct (handle_extends x input) as [more' ->].
    exists (more' ++ more). by rewrite app_assoc.
Qed.

(** C7. The stream [sendRequest] returns already holds the start event,
    with the two clock readings, as its only emission, before any delivery
    from the runtime is handled; whatever is delivered afterwards, that
    event stays the first emission. *)
Theorem request_start_first d o dn pn x :
  sendRequest d o dn pn = Ok x →
  Readable.emitted (resultsStream x) = [Emit (RequestStart dn pn)]
  ∧ ∀ inputs, ∃ later,
      Readable.emitted (resultsStream (run x inputs))
        = Emit (RequestStart dn pn) :: later.
Proof.
  intros H.
  apply sendRequest_inv in H as (_ & _ & _ & _ & _ & _ & _ & _ & _ & _ & Hs).
  split; [by rewrite Hs|].
  intros inputs. destruct (run_extends inputs x) as [more ->].
  rewrite Hs. by exists more.
Qed.












(** ** Cancellation *)





(** A rejected exchange without response listeners no longer changes its
    stream. *)
Lemma run_refused (inputs : list Input) :
  ∀ x : Exchange,
    promise x = Rejected →
    responseListeners x = false →
    resultsStream (run x inputs) = resultsStream x.
Proof.
  induction inputs as [|input inputs IH]; intros x Hp Hl; [done|].
  rewrite run_cons.
  assert (H : promise (handle x input) = Rejected
              ∧ responseListeners (handle x input) = false
              ∧ resultsStream (handle x input) = resultsStream x).
  { destruct x as [r al p l st]. cbn in Hp, Hl. subst p l.
    destruct input; cbn; unfold on_abort, reject, resolve; cbn;
      repeat (case_match; simplify_eq/=); done. }
  destruct H as (Hp' & Hl' & <-). by apply IH.
Qed.


(** * Further properties *)

(** ** Header codec, on arbitrary arrays *)

Lemma group2_length (n : nat) :
  ∀ l : list jsval, length l ≤ n → length (group2 l) = (length l + 1) / 2.
Proof.
  induction n as [|n IH]; intros l Hn.
  - destruct l; [reflexivity | simpl in Hn; lia].
  - destruct l as [|k [|v l]]; [reflexivity..|].
    cbn [group2 length]. rewrite IH by (simpl in Hn; lia).
    replace (S (S (length l)) + 1) with (length l + 1 + 1 * 2) by lia.
    rewrite Nat.div_add by lia. lia.
Qed.

Lemma group2_lookup (i : nat) :
  ∀ l : list jsval,
    2 * i < length l →
    group2 l !! i
      = Some (JArray [array_get l (2 * i); array_get l (2 * i + 1)]).
Proof.
  induction i as [|i IH]; intros l Hi.
  - destruct l as [|k [|v l]]; [simpl in Hi; lia | done..].
  - destruct l as [|k [|v l]]; [simpl in Hi; lia..|].
    cbn [group2]. rewrite lookup_cons_ne_0 by done. cbn [pred].
    rewrite IH by (simpl in Hi; lia).
    unfold array_get.
    replace (2 * S i) with (S (S (2 * i))) by lia.
    replace (S (S (2 * i)) + 1) with (S (S (2 * i + 1))) by lia.
    done.
Qed.

(** X1. Whatever the array and its length, the pairing has one entry for
    every two elements, rounded up, and its [i]-th entry is the two-element
    array of the elements read at [2i] and [2i+1] (the second being
    [undefined] past the end). *)
Theorem pair_entries (l : list jsval) :
  length (pairFlatRawHeaders l) = (length l + 1) / 2
  ∧ ∀ i, 2 * i < length l →
      pairFlatRawHeaders l !! i
        = Some (JArray [array_get l (2 * i); array_get l (2 * i + 1)]).
Proof.
  rewrite pairFlatRawHeaders_group2. split.
  - by apply (group2_length (length l)).
  - intros i Hi. by apply group2_lookup.
Qed.

(** X2. Flattening the pairing of a list of strings of odd length gives
    the list followed by one [undefined]. *)
Theorem flatten_pair_odd (f : list string) (n : nat) :
  length f = 2 * n + 1 →
  flattenPairedRawHeaders (pairFlatRawHeaders (js_strings f))
    = js_strings f ++ [JUndefined].
Proof.
  intros Hlen.
  destruct (proj2 (even_odd_flat n f) Hlen) as (h & k & _ & ->).
  rewrite pairFlatRawHeaders_group2, group2_flat_strings_odd.
  unfold flattenPairedRawHeaders, array_flat.
  rewrite bind_app. fold (array_flat (js_headers h)).
  fold (flattenPairedRawHeaders (js_headers h)).
  rewrite flatten_js_headers. unfold js_strings. rewrite fmap_app.
  by rewrite <- app_assoc.
Qed.

Lemma group2_app (n : nat) :
  ∀ l1 l2 : list jsval,
    length l1 = 2 * n → group2 (l1 ++ l2) = group2 l1 ++ group2 l2.
Proof.
  induction n as [|n IH]; intros l1 l2 Hlen.
  - by destruct l1.
  - destruct l1 as [|k [|v l1]]; simpl in Hlen; try lia.
    cbn [app group2]. rewrite IH by lia. done.
Qed.

(** X3. Pairing distributes over concatenation after a prefix of even
    length, and flattening distributes over any concatenation. *)
Theorem codec_concatenation (l1 l2 h1 h2 : list jsval) (n : nat) :
  length l1 = 2 * n →
  pairFlatRawHeaders (l1 ++ l2)
    = pairFlatRawHeaders l1 ++ pairFlatRawHeaders l2
  ∧ flattenPairedRawHeaders (h1 ++ h2)
    = flattenPairedRawHeaders h1 ++ flattenPairedRawHeaders h2.
Proof.
  intros Hlen. split.
  - rewrite !pairFlatRawHeaders_group2. by apply (group2_app n).
  - unfold flattenPairedRawHeaders, array_flat. apply bind_app.
Qed.

Lemma js_headers_inj (h1 h2 : RawHeaders) :
  js_headers h1 = js_headers h2 → h1 = h2.
Proof.
  revert h2. induction h1 as [|[k1 v1] h1 IH]; intros [|[k2 v2] h2] H;
    try done.
  injection H as -> -> H. by rewrite (IH h2 H).
Qed.

(** X4. Two header lists with the same flat form are the same list. *)
Theorem flatten_injective (h1 h2 : RawHeaders) :
  flattenPairedRawHeaders (js_headers h1)
    = flattenPairedRawHeaders (js_headers h2) →
  h1 = h2.
Proof.
  intros H. apply js_headers_inj.
  rewrite <- (group2_flat_strings h1), <- (group2_flat_strings h2).
  rewrite <- !flatten_js_headers. by rewrite H.
Qed.

(** ** What [sendRequest] accepts and what it puts on the request line *)

Lemma append_colon_http (s : string) : s +:+ ":" = "http:" → s = "http".
Proof.
  intros H.
  do 4 (destruct s as [|? s]; [simpl in H; inversion H|]).
  change ((String a (String a0 (String a1 (String a2 (s +:+ ":")))))
          = "http:") in H.
  injection H as -> -> -> -> H.
  destruct s as [|? s]; [done|].
  change (String a (s +:+ ":") = ":") in H.
  injection H as _ H. by destruct s.
Qed.

Lemma module_request_accepts (module : Transport) (input method : string)
    (signal : option AbortSignal) (r : ClientRequest.t) :
  module_request module input method signal = Ok r →
  ∃ u,
    URL_new input = Ok u
    ∧ protocol u = agent_protocol module
    ∧ (method = "" ∨ checkIsHttpToken method = true)
    ∧ ClientRequest.method r
      = (if String.eqb method "" then "GET" else toUpperCase method)
    ∧ ClientRequest.path r = url_path u.
Proof.
  unfold module_request. intros H.
  apply bind_Ok in H as (u & Hu & H). exists u. split; [done|].
  destruct (String.eqb (protocol u) (agent_protocol module)) eqn:Hp;
    [|done].
  apply String.eqb_eq in Hp. cbn [negb] in H.
  destruct (String.eqb method "") eqn:Hm; cbn [negb andb] in H.
  - apply String.eqb_eq in Hm. injection H as <-.
    split; [done|]. split; [by left|]. by split.
  - destruct (checkIsHttpToken method) eqn:Ht; [|done].
    injection H as <-.
    split; [done|]. split; [by right|]. by split.
Qed.

Lemma processHeaders_valid (h : RawHeaders) :
  ∀ (state : HeaderState) (header : string) (r : HeaderState * string),
    processHeaders state header (js_strings (flat_strings h)) = Ok r →
    Forall (λ kv, checkIsHttpToken kv.1 = true
                  ∧ checkInvalidHeaderChar kv.2 = false) h.
Proof.
  induction h as [|[k v] h IH]; intros state header r H; [done|].
  change (js_strings (flat_strings ((k, v) :: h)))
    with (JString k :: JString v :: js_strings (flat_strings h)) in H.
  cbn [processHeaders] in H.
  destruct (checkIsHttpToken k) eqn:Hk; cbn [negb] in H; [|done].
  destruct (checkInvalidHeaderChar v) eqn:Hv; [done|].
  constructor; [done|]. by eapply IH.
Qed.

Lemma sendRequest_accepts d o dn pn x :
  sendRequest d o dn pn = Ok x →
  ∃ u,
    URL_new (url d) = Ok u
    ∧ scheme u = "http"
    ∧ (method d = "" ∨ checkIsHttpToken (method d) = true)
    ∧ Forall (λ kv, checkIsHttpToken kv.1 = true
                    ∧ checkInvalidHeaderChar kv.2 = false) (headers d)
    ∧ ClientRequest.method (request x)
      = (if String.eqb (method d) "" then "GET"
         else toUpperCase (method d))
    ∧ ClientRequest.path (request x) = url_path u.
Proof.
  unfold sendRequest. intros H.
  apply bind_Ok in H as (u & Hu & H).
  apply bind_Ok in H as (r0 & Hr0 & H).
  pose proof (module_request_inv _ _ _ _ _ Hr0) as (_ & _ & Hhdr & _).
  unfold select_transport in Hr0. rewrite protocol_not_https in Hr0.
  apply module_request_accepts in Hr0 as (u' & Hu' & Hp & Hm & Hme & Hpa).
  rewrite Hu in Hu'. injection Hu' as <-.
  apply bind_Ok in H as (r1 & Hr1 & H).
  rewrite removeHeader_connection in Hr1 by done. injection Hr1 as <-.
  apply bind_Ok in H as (r2 & Hr2 & H).
  rewrite removeHeader_transfer_encoding in Hr2 by done. injection Hr2 as <-.
  apply bind_Ok in H as (r3 & Hr3 & H).
  rewrite removeHeader_content_length in Hr3 by done. injection Hr3 as <-.
  apply bind_Ok in H as (r4 & Hr4 & H).
  rewrite flatten_js_headers in Hr4.
  pose proof Hr4 as Hvalid. unfold _storeHeader in Hvalid.
  apply bind_Ok in Hvalid as (sh & Hvalid & _).
  apply processHeaders_valid in Hvalid.
  apply storeHeader_removed in Hr4; [|done..].
  injection H as <-. subst r4.
  exists u. split; [done|]. split; [by apply append_colon_http|].
  split; [done|]. split; [done|].
  destruct (rawBody d) as [body|]; [destruct (negb (length body =? 0))|];
    cbn; by rewrite Hme, Hpa.
Qed.

(** X5. [sendRequest] returns only for a URL whose scheme is [http], in
    any letter case; for every other URL, an [https] one included, it
    throws. *)
Theorem sendRequest_only_http d o dn pn x :
  sendRequest d o dn pn = Ok x →
  ∃ u, URL_new (url d) = Ok u ∧ scheme u = "http".
Proof.
  intros H. apply sendRequest_accepts in H as (u & Hu & Hs & _).
  by exists u.
Qed.

(** X6. [sendRequest] returns only when the transport's checks pass: the
    method is empty or a token, every header name is a token and no header
    value holds a forbidden character.  Otherwise it throws and nothing is
    sent. *)
Theorem sendRequest_checks_method_and_headers d o dn pn x :
  sendRequest d o dn pn = Ok x →
  (method d = "" ∨ checkIsHttpToken (method d) = true)
  ∧ Forall (λ kv, checkIsHttpToken kv.1 = true
                  ∧ checkInvalidHeaderChar kv.2 = false) (headers d).
Proof.
  intros H. by apply sendRequest_accepts in H as (u & _ & _ & Hm & Hh & _).
Qed.


(** ** The stream, whatever is delivered *)

Lemma later_event_Forall_snoc (rest : list Emission) (e : Emission) :
  Forall is_later_event rest → is_later_event e →
  Forall is_later_event (rest ++ [e]).
Proof. intros H He. apply Forall_app. by split; [|apply Forall_singleton]. Qed.

Ltac solve_outline :=
  first
    [ by apply outline_awaiting
    | by apply outline_refused
    | by apply outline_answered
    | apply outline_answered;
      repeat (apply later_event_Forall_snoc; [|done]); done ].

Lemma handle_outline (start : Z) (now : Q) (x : Exchange) (input : Input) :
  outline start now (promise x) (responseListeners x) (resultsStream x) →
  outline start now (promise (handle x input))
    (responseListeners (handle x input)) (resultsStream (handle x input)).
Proof.
  destruct x as [r al p l st]. cbn. intros Hph.
  inversion Hph; subst; destruct input;
    cbn; unfold on_abort, reject, resolve, on_rejected, on_fulfilled,
      Readable.push, Readable.push_null, Readable.destroy; cbn;
    repeat (case_match; simplify_eq/=); try solve_outline.
Qed.

Lemma run_outline (start : Z) (now : Q) (inputs : list Input) :
  ∀ x : Exchange,
    outline start now (promise x) (responseListeners x) (resultsStream x) →
    outline start now (promise (run x inputs))
      (responseListeners (run x inputs)) (resultsStream (run x inputs)).
Proof.
  induction inputs as [|input inputs IH]; intros x H; [done|].
  rewrite run_cons. by apply IH, handle_outline.
Qed.

Lemma sendRequest_outline d o dn pn x :
  sendRequest d o dn pn = Ok x →
  outline dn pn (promise x) (responseListeners x) (resultsStream x).
Proof.
  intros H.
  apply sendRequest_inv in H
    as (_ & _ & _ & _ & _ & _ & _ & _ & Hp & Hl & Hs).
  rewrite Hp, Hl, Hs. constructor.
Qed.

Lemma outline_shape (start : Z) (now : Q) (p : PromiseState) (l : bool)
    (st : Readable.t) :
  outline start now p l st →
  Readable.emitted st = [Emit (RequestStart start now)]
  ∨ (∃ err,
       Readable.emitted st = [Emit (RequestStart start now); StreamError err])
  ∨ (∃ code msg hdrs now' rest,
       Readable.emitted st
         = Emit (RequestStart start now)
           :: Emit (ResponseHead code msg hdrs now') :: rest
       ∧ Forall is_later_event rest).
Proof.
  intros H. inversion H; subst; cbn.
  - by left.
  - right. left. by exists err.
  - right. right. by exists code, msg, hdrs, now', rest.
Qed.

(** X8. Whatever the runtime delivers and in whatever order, the stream's
    output is the start event alone, or the start event and one error, or
    the start event, then one head, then neither a start event nor a head:
    the start event comes first and once, and at most one head is ever
    emitted, right after it. *)
Theorem one_start_one_head d o dn pn x inputs :
  sendRequest d o dn pn = Ok x →
  Readable.emitted (resultsStream (run x inputs))
    = [Emit (RequestStart dn pn)]
  ∨ (∃ err,
       Readable.emitted (resultsStream (run x inputs))
         = [Emit (RequestStart dn pn); StreamError err])
  ∨ (∃ code msg hdrs now' rest,
       Readable.emitted (resultsStream (run x inputs))
         = Emit (RequestStart dn pn)
           :: Emit (ResponseHead code msg hdrs now') :: rest
       ∧ Forall is_later_event rest).
Proof.
  intros H. apply sendRequest_outline in H.
  apply (run_outline dn pn inputs) in H.
  by apply outline_shape in H.
Qed.

(** ** A response from head to end, and the ways it stops short *)

Lemma sendRequest_initial d o dn pn x :
  sendRequest d o dn pn = Ok x →
  promise x = Pending
  ∧ responseListeners x = false
  ∧ resultsStream x =
      {| Readable.emitted := [Emit (RequestStart dn pn)];
         Readable.ended := false; Readable.destroyed := false |}.
Proof.
  intros H.
  by apply sendRequest_inv in H
    as (_ & _ & _ & _ & _ & _ & _ & _ & Hp & Hl & Hs).
Qed.

Lemma handle_response_pending (x : Exchange) (log : list Emission)
    (response : IncomingMessage) (now : Q) :
  promise x = Pending →
  resultsStream x =
    {| Readable.emitted := log;
       Readable.ended := false; Readable.destroyed := false |} →
  promise (handle x (RequestResponse response now)) = Fulfilled
  ∧ responseListeners (handle x (RequestResponse response now)) = true
  ∧ resultsStream (handle x (RequestResponse response now)) =
      {| Readable.emitted :=
           log ++ [Emit (ResponseHead (statusCode response)
                           (statusMessage response)
                           (pairFlatRawHeaders
                              (js_strings (rawHeaders response))) now)];
         Readable.ended := false; Readable.destroyed := false |}.
Proof. destruct x as [r al p l st]. cbn. by intros -> ->. Qed.

Lemma run_data_deliveries (chunks : list (bytes * Q)) :
  ∀ (x : Exchange) (log : list Emission),
    responseListeners x = true →
    resultsStream x =
      {| Readable.emitted := log;
         Readable.ended := false; Readable.destroyed := false |} →
    promise (run x (data_deliveries chunks)) = promise x
    ∧ responseListeners (run x (data_deliveries chunks)) = true
    ∧ resultsStream (run x (data_deliveries chunks)) =
        {| Readable.emitted := log ++ body_parts chunks;
           Readable.ended := false; Readable.destroyed := false |}.
Proof.
  induction chunks as [|[data now] chunks IH]; intros x log Hl Hs.
  - cbn. by rewrite app_nil_r.
  - change (data_deliveries ((data, now) :: chunks))
      with (ResponseData data now :: data_deliveries chunks).
    rewrite run_cons.
    destruct (IH (handle x (ResponseData data now))
                (log ++ [Emit (ResponseBodyPart data now)]))
      as (Hp' & Hl' & Hs').
    + destruct x as [r al p l st]. cbn in *. by subst.
    + destruct x as [r al p l st]. cbn in *. by subst.
    + rewrite Hp', Hl', Hs'. split; [|split; [done|]].
      * destruct x as [r al p l st]. cbn in *. by subst.
      * by rewrite <- app_assoc.
Qed.

(** X9. A response delivered as its head, its body chunk by chunk and its
    end is emitted as the start event, one head carrying the status and the
    re-paired raw headers, one body part per chunk with the chunk's bytes,
    in the order of arrival, then the end event and the end of the
    stream. *)
Theorem response_is_relayed d o dn pn x response now chunks ended_at :
  sendRequest d o dn pn = Ok x →
  Readable.emitted
    (resultsStream
       (run x (RequestResponse response now
               :: data_deliveries chunks ++ [ResponseEnded ended_at])))
  = Emit (RequestStart dn pn)
    :: Emit (ResponseHead (statusCode response) (statusMessage response)
               (pairFlatRawHeaders (js_strings (rawHeaders response))) now)
    :: body_parts chunks ++ [Emit (ResponseEnd ended_at); EndOfStream].
Proof.
  intros H. apply sendRequest_initial in H as (Hp & _ & Hs).
  rewrite run_cons, run_app.
  destruct (handle_response_pending x _ response now Hp Hs)
    as (_ & Hl1 & Hs1).
  destruct (run_data_deliveries chunks _ _ Hl1 Hs1) as (_ & Hl2 & Hs2).
  destruct (run _ (data_deliveries chunks)) as [r al p l st].
  cbn in Hl2, Hs2. subst l st. cbn.
  by rewrite <- app_assoc.
Qed.

Lemma handle_keeps_destroyed (x : Exchange) (input : Input) :
  ClientRequest.destroyed (request x) = true →
  ClientRequest.destroyed (request (handle x input)) = true.
Proof.
  destruct x as [r al p l st], input; cbn; intros Hde;
    unfold on_abort, reject, resolve; cbn;
    repeat (case_match; cbn); rewrite ?abort_keeps_destroyed; done.
Qed.

Lemma run_keeps_destroyed (inputs : list Input) :
  ∀ x : Exchange,
    ClientRequest.destroyed (request x) = true →
    ClientRequest.destroyed (request (run x inputs)) = true.
Proof.
  induction inputs as [|input inputs IH]; intros x Hde; [done|].
  rewrite run_cons. by apply IH, handle_keeps_destroyed.
Qed.

(** X10. When the request fails before any response, the stream's output
    is the start event followed by that error and the request is
    destroyed; whatever is delivered afterwards, a late response included,
    changes neither. *)
Theorem request_error_ends_stream d o dn pn x err later :
  sendRequest d o dn pn = Ok x →
  Readable.emitted (resultsStream (run x (RequestError err :: later)))
    = [Emit (RequestStart dn pn); StreamError err]
  ∧ ClientRequest.destroyed (request (run x (RequestError err :: later)))
    = true.
Proof.
  intros H. apply sendRequest_initial in H as (Hp & Hl & Hs).
  rewrite run_cons.
  assert (Hx : promise (handle x (RequestError err)) = Rejected
               ∧ responseListeners (handle x (RequestError err)) = false
               ∧ resultsStream (handle x (RequestError err)) =
                   {| Readable.emitted :=
                        [Emit (RequestStart dn pn); StreamError err];
                      Readable.ended := false;
                      Readable.destroyed := true |}
               ∧ ClientRequest.destroyed
                   (request (handle x (RequestError err))) = true).
  { destruct x as [r al p l st]. cbn in *. by subst. }
  destruct Hx as (Hp' & Hl' & Hs' & Hde'). split.
  - by rewrite run_refused, Hs'.
  - by apply run_keeps_destroyed.
Qed.

Lemma handle_destroyed_silent (x : Exchange) (input : Input) :
  Readable.destroyed (resultsStream x) = true →
  Readable.destroyed (resultsStream (handle x input)) = true
  ∧ Readable.emitted (resultsStream (handle x input))
    = Readable.emitted (resultsStream x).
Proof.
  destruct x as [r al p l [log e de]], input; cbn; intros ->;
    unfold on_abort, reject, resolve, on_rejected, on_fulfilled,
      Readable.push, Readable.push_null, Readable.destroy; cbn;
    repeat (case_match; simplify_eq/=); done.
Qed.

Lemma run_destroyed_silent (inputs : list Input) :
  ∀ x : Exchange,
    Readable.destroyed (resultsStream x) = true →
    Readable.emitted (resultsStream (run x inputs))
      = Readable.emitted (resultsStream x).
Proof.
  induction inputs as [|input inputs IH]; intros x Hde; [done|].
  rewrite run_cons.
  destruct (handle_destroyed_silent x input Hde) as [Hde' <-].
  by apply IH.
Qed.

(** X11. Once the stream has been destroyed, nothing more is emitted on
    it, whatever is delivered. *)
Theorem destroyed_stream_is_silent (x : Exchange) (before later : list Input) :
  Readable.destroyed (resultsStream (run x before)) = true →
  Readable.emitted (resultsStream (run x (before ++ later)))
    = Readable.emitted (resultsStream (run x before)).
Proof. intros H. rewrite run_app. by apply run_destroyed_silent. Qed.

(** X12. When the response fails after its head and some of its body, the
    stream's output is the start event, the head, the body parts received
    so far and that error; nothing delivered afterwards, the response's
    end included, adds to it. *)
Theorem response_error_ends_stream
    d o dn pn x response now chunks err later :
  sendRequest d o dn pn = Ok x →
  Readable.emitted
    (resultsStream
       (run x (RequestResponse response now
               :: data_deliveries chunks ++ ResponseError err :: later)))
  = Emit (RequestStart dn pn)
    :: Emit (ResponseHead (statusCode response) (statusMessage response)
               (pairFlatRawHeaders (js_strings (rawHeaders response))) now)
    :: body_parts chunks ++ [StreamError err].
Proof.
  intros H. apply sendRequest_initial in H as (Hp & _ & Hs).
  rewrite run_cons, run_app, run_cons.
  destruct (handle_response_pending x _ response now Hp Hs)
    as (_ & Hl1 & Hs1).
  destruct (run_data_deliveries chunks _ _ Hl1 Hs1) as (_ & Hl2 & Hs2).
  rewrite run_destroyed_silent.
  - destruct (run _ (data_deliveries chunks)) as [r al p l st].
    cbn in Hl2, Hs2. by subst l st.
  - destruct (run _ (data_deliveries chunks)) as [r al p l st].
    cbn in Hl2, Hs2. by subst l st.
Qed.

Lemma outline_head_settled (start : Z) (now : Q) (x : Exchange) :
  outline start now (promise x) (responseListeners x) (resultsStream x) →
  head_emitted x = true →
  promise x = Fulfilled.
Proof.
  destruct x as [r al p l st]. unfold head_emitted. cbn.
  intros H Hh. by inversion H; subst; cbn in Hh.
Qed.

(** X13. Once the head has been emitted, an error of the request is
    ignored: the exchange is left exactly as it was. *)
Theorem request_error_after_head_ignored d o dn pn x before err :
  sendRequest d o dn pn = Ok x →
  head_emitted (run x before) = true →
  handle (run x before) (RequestError err) = run x before.
Proof.
  intros H Hh. apply sendRequest_outline in H.
  apply (run_outline dn pn before) in H.
  apply outline_head_settled in H; [|done].
  cbn. unfold reject. by rewrite H.
Qed.

(** X14. Once the head has been emitted, an abort of a signalled request
    marks the request aborted and destroyed but emits nothing by itself:
    the stream is as it was. *)
Theorem abort_after_head_leaves_stream d o dn pn x sg before :
  sendRequest d o dn pn = Ok x →
  abortSignal o = Some sg →
  head_emitted (run x before) = true →
  resultsStream (handle (run x before) SignalAbort)
    = resultsStream (run x before)
  ∧ ClientRequest.aborted (request (handle (run x before) SignalAbort))
    = true
  ∧ ClientRequest.destroyed (request (handle (run x before) SignalAbort))
    = true.
Proof.
  intros H Hsg Hh.
  pose proof (sendRequest_outline _ _ _ _ _ H) as Ho.
  apply sendRequest_inv in H as (_ & _ & _ & _ & _ & _ & Hs & Hal & _).
  rewrite Hsg in Hs, Hal.
  destruct (run_keeps_signal before x) as [Hs' Hal'].
  rewrite Hs in Hs'. rewrite Hal in Hal'.
  rewrite bool_decide_eq_true_2 in Hal' by by eexists.
  apply (run_outline dn pn before) in Ho.
  apply outline_head_settled in Ho; [|done].
  destruct (run x before) as [r al p l st]. cbn in *. subst al p.
  unfold on_abort, reject. cbn. rewrite Hs'.
  destruct (negb (ClientRequest.destroyed r)); cbn;
    rewrite abort_aborted, abort_keeps_destroyed; done.
Qed.


End Transmitter.

(** ** Worked examples *)

Example roundtrip_duplicates_and_empty :
  pairFlatRawHeaders
    (flattenPairedRawHeaders
       (js_headers [("X-A", "1"); ("X-A", "2"); ("x-a", ""); ("", "")]))
  = js_headers [("X-A", "1"); ("X-A", "2"); ("x-a", ""); ("", "")].
Proof. vm_compute. reflexivity. Qed.

Example example_sendRequest_header :
  ∃ x,
    sendRequest example_url_path example_url_host example_checkIsHttpToken
      example_checkInvalidHeaderChar true example_request example_options
      0%Z 0%Q = Ok x
    ∧ ClientRequest._header (request x)
      = Some ("POST /upload?x=1 HTTP/1.1" +:+ CRLF
              +:+ "X-A: 1" +:+ CRLF +:+ "X-A: 2" +:+ CRLF +:+ CRLF).
Proof. eexists. split; vm_compute; reflexivity. Qed.

(** The listeners do not check by themselves that the response has ended:
    the order of the response's events is the transport's guarantee.  Were
    an error delivered after the end, the stream would emit it. *)
Remark error_after_end_is_not_guarded :
  ∃ x,
    sendRequest example_url_path example_url_host example_checkIsHttpToken
      example_checkInvalidHeaderChar true example_request example_options
      0%Z 0%Q = Ok x
    ∧ end_is_final
        [RequestResponse example_response 1%Q; ResponseEnded 2%Q;
         ResponseError (TransportError "ECONNRESET")] = false
    ∧ Readable.emitted
        (resultsStream
           (run x
              [RequestResponse example_response 1%Q; ResponseEnded 2%Q;
               ResponseError (TransportError "ECONNRESET")]))
      = [Emit (RequestStart 0%Z 0%Q);
         Emit (ResponseHead 200%N (Some "OK")
                 (js_headers [("Set-Cookie", "a=1"); ("Set-Cookie", "b=2")])
                 1%Q);
         Emit (ResponseEnd 2%Q); EndOfStream;
         StreamError (TransportError "ECONNRESET")].
Proof.
  eexists. split; [vm_compute; reflexivity|].
  split; vm_compute; reflexivity.
Qed.

Lemma header_block_exact_witness :
  ∃ x,
    sendRequest example_url_path example_url_host example_checkIsHttpToken
      example_checkInvalidHeaderChar true example_request example_options
      0%Z 0%Q = Ok x
    ∧ ClientRequest._header (request x) =
        Some (request_line (request x)
              +:+ header_lines (headers example_request) +:+ CRLF).
Proof.
  eexists. split; [vm_compute; reflexivity|].
  apply (header_block_exact example_url_path example_url_host
           example_checkIsHttpToken example_checkInvalidHeaderChar true
           example_request example_options 0%Z 0%Q).
  vm_compute; reflexivity.
Defined.

Lemma body_written_then_ended_witness :
  ∃ x,
    sendRequest example_url_path example_url_host example_checkIsHttpToken
      example_checkInvalidHeaderChar true example_request example_options
      0%Z 0%Q = Ok x
    ∧ ClientRequest.finished (request x) = true
    ∧ (∀ body, rawBody example_request = Some body → body ≠ [] →
         ClientRequest.written (request x) = [body])
    ∧ (rawBody example_request = None ∨ rawBody example_request = Some [] →
         ClientRequest.written (request x) = []).
Proof.
  eexists. split; [vm_compute; reflexivity|].
  apply (body_written_then_ended example_url_path example_url_host
           example_checkIsHttpToken example_checkInvalidHeaderChar true
           example_request example_options 0%Z 0%Q).
  vm_compute; reflexivity.
Defined.

Lemma request_start_first_witness :
  ∃ x,
    sendRequest example_url_path example_url_host example_checkIsHttpToken
      example_checkInvalidHeaderChar true example_request example_options
      0%Z 0%Q = Ok x
    ∧ Readable.emitted (resultsStream x) = [Emit (RequestStart 0%Z 0%Q)]
    ∧ ∀ inputs, ∃ later,
        Readable.emitted (resultsStream (run x inputs))
          = Emit (RequestStart 0%Z 0%Q) :: later.
Proof.
  eexists. split; [vm_compute; reflexivity|].
  apply (request_start_first example_url_path example_url_host
           example_checkIsHttpToken example_checkInvalidHeaderChar true
           example_request example_options 0%Z 0%Q).
  vm_compute; reflexivity.
Defined.



(** ** Worked examples of the further properties *)

Lemma flatten_pair_odd_witness :
  flattenPairedRawHeaders (pairFlatRawHeaders (js_strings ["a"; "b"; "c"]))
    = js_strings ["a"; "b"; "c"] ++ [JUndefined].
Proof. apply (flatten_pair_odd ["a"; "b"; "c"] 1). reflexivity. Defined.

Lemma codec_concatenation_witness :
  pairFlatRawHeaders (js_strings ["a"; "1"] ++ js_strings ["b"])
    = pairFlatRawHeaders (js_strings ["a"; "1"])
      ++ pairFlatRawHeaders (js_strings ["b"])
  ∧ flattenPairedRawHeaders
      (js_headers [("a", "1")] ++ js_headers [("b", "2")])
    = flattenPairedRawHeaders (js_headers [("a", "1")])
      ++ flattenPairedRawHeaders (js_headers [("b", "2")]).
Proof.
  apply (codec_concatenation (js_strings ["a"; "1"]) (js_strings ["b"])
           (js_headers [("a", "1")]) (js_headers [("b", "2")]) 1).
  reflexivity.
Defined.

Lemma flatten_injective_witness :
  [("X-A", "1"); ("X-A", "")] = [("X-A", "1"); ("X-A", "")].
Proof.
  apply (flatten_injective [("X-A", "1"); ("X-A", "")]
           [("X-A", "1"); ("X-A", "")]).
  reflexivity.
Defined.

Lemma sendRequest_only_http_witness :
  ∃ x,
    sendRequest example_url_path example_url_host example_checkIsHttpToken
      example_checkInvalidHeaderChar true example_request example_options
      0%Z 0%Q = Ok x
    ∧ ∃ u, URL_new (url example_request) = Ok u ∧ scheme u = "http".
Proof.
  eexists. split; [vm_compute; reflexivity|].
  eapply (sendRequest_only_http example_url_path example_url_host
           example_checkIsHttpToken example_checkInvalidHeaderChar true
           example_request example_options 0%Z 0%Q).
  vm_compute; reflexivity.
Defined.

Lemma sendRequest_checks_method_and_headers_witness :
  ∃ x,
    sendRequest example_url_path example_url_host example_checkIsHttpToken
      example_checkInvalidHeaderChar true example_request example_options
      0%Z 0%Q = Ok x
    ∧ (method example_request = ""
       ∨ example_checkIsHttpToken (method example_request) = true)
    ∧ Forall (λ kv, example_checkIsHttpToken kv.1 = true
                    ∧ example_checkInvalidHeaderChar kv.2 = false)
        (headers example_request).
Proof.
  eexists. split; [vm_compute; reflexivity|].
  eapply (sendRequest_checks_method_and_headers example_url_path
           example_url_host example_checkIsHttpToken
           example_checkInvalidHeaderChar true
           example_request example_options 0%Z 0%Q).
  vm_compute; reflexivity.
Defined.


Lemma one_start_one_head_witness :
  ∃ x,
    sendRequest example_url_path example_url_host example_checkIsHttpToken
      example_checkInvalidHeaderChar true example_request example_options
      0%Z 0%Q = Ok x
    ∧ (Readable.emitted
         (resultsStream
            (run x [RequestResponse example_response 1%Q; ResponseEnded 2%Q;
                    RequestResponse example_response 3%Q;
                    ResponseData [x6f] 4%Q]))
       = [Emit (RequestStart 0%Z 0%Q)]
       ∨ (∃ err,
            Readable.emitted
              (resultsStream
                 (run x [RequestResponse example_response 1%Q;
                         ResponseEnded 2%Q;
                         RequestResponse example_response 3%Q;
                         ResponseData [x6f] 4%Q]))
            = [Emit (RequestStart 0%Z 0%Q); StreamError err])
       ∨ (∃ code msg hdrs now' rest,
            Readable.emitted
              (resultsStream
                 (run x [RequestResponse example_response 1%Q;
                         ResponseEnded 2%Q;
                         RequestResponse example_response 3%Q;
                         ResponseData [x6f] 4%Q]))
            = Emit (RequestStart 0%Z 0%Q)
              :: Emit (ResponseHead code msg hdrs now') :: rest
            ∧ Forall is_later_event rest)).
Proof.
  eexists. split; [vm_compute; reflexivity|].
  eapply (one_start_one_head example_url_path example_url_host
           example_checkIsHttpToken example_checkInvalidHeaderChar true
           example_request example_options 0%Z 0%Q).
  vm_compute; reflexivity.
Defined.

Lemma response_is_relayed_witness :
  ∃ x,
    sendRequest example_url_path example_url_host example_checkIsHttpToken
      example_checkInvalidHeaderChar true example_request example_options
      0%Z 0%Q = Ok x
    ∧ Readable.emitted
        (resultsStream
           (run x (RequestResponse example_response 1%Q
                   :: data_deliveries [([x6f], 2%Q); ([x6b], 3%Q)]
                      ++ [ResponseEnded 4%Q])))
      = Emit (RequestStart 0%Z 0%Q)
        :: Emit (ResponseHead (statusCode example_response)
                   (statusMessage example_response)
                   (pairFlatRawHeaders
                      (js_strings (rawHeaders example_response))) 1%Q)
        :: body_parts [([x6f], 2%Q); ([x6b], 3%Q)]
           ++ [Emit (ResponseEnd 4%Q); EndOfStream].
Proof.
  eexists. split; [vm_compute; reflexivity|].
  eapply (response_is_relayed example_url_path example_url_host
           example_checkIsHttpToken example_checkInvalidHeaderChar true
           example_request example_options 0%Z 0%Q).
  vm_compute; reflexivity.
Defined.

Lemma request_error_ends_stream_witness :
  ∃ x,
    sendRequest example_url_path example_url_host example_checkIsHttpToken
      example_checkInvalidHeaderChar true example_request example_options
      0%Z 0%Q = Ok x
    ∧ Readable.emitted
        (resultsStream
           (run x (RequestError (TransportError "ECONNREFUSED")
                   :: [RequestResponse example_response 1%Q])))
      = [Emit (RequestStart 0%Z 0%Q);
         StreamError (TransportError "ECONNREFUSED")]
    ∧ ClientRequest.destroyed
        (request
           (run x (RequestError (TransportError "ECONNREFUSED")
                   :: [RequestResponse example_response 1%Q])))
      = true.
Proof.
  eexists. split; [vm_compute; reflexivity|].
  eapply (request_error_ends_stream example_url_path example_url_host
           example_checkIsHttpToken example_checkInvalidHeaderChar true
           example_request example_options 0%Z 0%Q).
  vm_compute; reflexivity.
Defined.

Lemma destroyed_stream_is_silent_witness :
  ∃ x,
    sendRequest example_url_path example_url_host example_checkIsHttpToken
      example_checkInvalidHeaderChar true example_request example_options
      0%Z 0%Q = Ok x
    ∧ Readable.destroyed
        (resultsStream (run x [RequestError (TransportError "ECONNRESET")]))
      = true
    ∧ Readable.emitted
        (resultsStream
           (run x ([RequestError (TransportError "ECONNRESET")]
                   ++ [RequestResponse example_response 1%Q;
                       ResponseData [x6f] 2%Q])))
      = Readable.emitted
          (resultsStream
             (run x [RequestError (TransportError "ECONNRESET")])).
Proof.
  eexists. split; [vm_compute; reflexivity|].
  split; [vm_compute; reflexivity|].
  eapply (destroyed_stream_is_silent _
           [RequestError (TransportError "ECONNRESET")]
           [RequestResponse example_response 1%Q; ResponseData [x6f] 2%Q]).
  vm_compute; reflexivity.
Defined.

Lemma response_error_ends_stream_witness :
  ∃ x,
    sendRequest example_url_path example_url_host example_checkIsHttpToken
      example_checkInvalidHeaderChar true example_request example_options
      0%Z 0%Q = Ok x
    ∧ Readable.emitted
        (resultsStream
           (run x (RequestResponse example_response 1%Q
                   :: data_deliveries [([x6f], 2%Q)]
                      ++ ResponseError (TransportError "ECONNRESET")
                         :: [ResponseEnded 3%Q])))
      = Emit (RequestStart 0%Z 0%Q)
        :: Emit (ResponseHead (statusCode example_response)
                   (statusMessage example_response)
                   (pairFlatRawHeaders
                      (js_strings (rawHeaders example_response))) 1%Q)
        :: body_parts [([x6f], 2%Q)]
           ++ [StreamError (TransportError "ECONNRESET")].
Proof.
  eexists. split; [vm_compute; reflexivity|].
  eapply (response_error_ends_stream example_url_path example_url_host
           example_checkIsHttpToken example_checkInvalidHeaderChar true
           example_request example_options 0%Z 0%Q).
  vm_compute; reflexivity.
Defined.

Lemma request_error_after_head_ignored_witness :
  ∃ x,
    sendRequest example_url_path example_url_host example_checkIsHttpToken
      example_checkInvalidHeaderChar true example_request example_options
      0%Z 0%Q = Ok x
    ∧ head_emitted (run x [RequestResponse example_response 1%Q]) = true
    ∧ handle (run x [RequestResponse example_response 1%Q])
        (RequestError (TransportError "EPIPE"))
      = run x [RequestResponse example_response 1%Q].
Proof.
  eexists. split; [vm_compute; reflexivity|].
  split; [vm_compute; reflexivity|].
  eapply (request_error_after_head_ignored example_url_path example_url_host
           example_checkIsHttpToken example_checkInvalidHeaderChar true
           example_request example_options 0%Z 0%Q);
    vm_compute; reflexivity.
Defined.

Lemma abort_after_head_leaves_stream_witness :
  ∃ x,
    sendRequest example_url_path example_url_host example_checkIsHttpToken
      example_checkInvalidHeaderChar true example_request example_options
      0%Z 0%Q = Ok x
    ∧ abortSignal example_options = Some Signal
    ∧ head_emitted (run x [RequestResponse example_response 1%Q]) = true
    ∧ resultsStream
        (handle (run x [RequestResponse example_response 1%Q]) SignalAbort)
      = resultsStream (run x [RequestResponse example_response 1%Q])
    ∧ ClientRequest.aborted
        (request
           (handle (run x [RequestResponse example_response 1%Q])
              SignalAbort))
      = true
    ∧ ClientRequest.destroyed
        (request
           (handle (run x [RequestResponse example_response 1%Q])
              SignalAbort))
      = true.
Proof.
  eexists. split; [vm_compute; reflexivity|].
  split; [reflexivity|]. split; [vm_compute; reflexivity|].
  eapply (abort_after_head_leaves_stream example_url_path example_url_host
           example_checkIsHttpToken example_checkInvalidHeaderChar true
           example_request example_options 0%Z 0%Q _ Signal);
    vm_compute; reflexivity.
Defined.

(** * The fresh Chrome interceptor *)

Lemma number_to_string_inj (n m : N) :
  FreshChrome.number_to_string n = FreshChrome.number_to_string m → n = m.
Proof.
  unfold FreshChrome.number_to_string. intros H.
  apply (f_equal DecimalString.NilZero.uint_of_string) in H.
  assert (Hnil : ∀ k : N, N.to_uint k ≠ Decimal.Nil).
  { intros [|p]; [done|]. apply DecimalPos.Unsigned.to_uint_nonnil. }
  rewrite !DecimalString.NilZero.usu in H by apply Hnil.
  injection H as H. by apply DecimalN.Unsigned.to_uint_inj.
Qed.

Lemma intersection_loop_head (maxLength : nat) (others : list string) :
  ∀ (array result : list string),
    result ≠ [] →
    head (FreshChrome.intersection_loop maxLength array others result)
      = head result.
Proof.
  induction array as [|value array IH]; intros result Hne; [done|].
  cbn [FreshChrome.intersection_loop].
  repeat case_match; try done; try by apply IH.
  rewrite IH by by destruct result. by destruct result.
Qed.

Lemma intersection_loop_first (maxLength : nat) (others : list string) :
  ∀ array : list string,
    0 < maxLength →
    head (FreshChrome.intersection_loop maxLength array others [])
      = head (filter (λ n, n ∈ others) array).
Proof.
  intros array Hmax.
  induction array as [|value array IH]; [done|].
  cbn [FreshChrome.intersection_loop length].
  destruct (0 <? maxLength) eqn:Hlt; [|apply Nat.ltb_ge in Hlt; lia].
  cbn [negb]. rewrite bool_decide_eq_false_2 by apply not_elem_of_nil.
  case_bool_decide as Hin.
  - rewrite filter_cons_True by done.
    by rewrite intersection_loop_head.
  - by rewrite filter_cons_False.
Qed.

Lemma getChromeBrowserName_head (available : list FreshChrome.Browser) :
  FreshChrome.getChromeBrowserName available
    = head (filter (λ n, n ∈ ["chrome"; "chromium"])
              (FreshChrome.name <$> available)).
Proof.
  unfold FreshChrome.getChromeBrowserName, FreshChrome.intersection.
  rewrite <- head_lookup.
  destruct available as [|b available]; [done|].
  apply intersection_loop_first. rewrite fmap_cons. cbn. lia.
Qed.

(** X16. [getChromeBrowserName] gives the name of the first available
    browser, in the launcher's order, that is called [chrome] or
    [chromium] (so [chromium] when it is listed before [chrome]), and
    [undefined] when there is none. *)
Theorem chrome_name_is_first_listed (available : list FreshChrome.Browser) :
  FreshChrome.getChromeBrowserName available
    = head (filter (λ n, n ∈ ["chrome"; "chromium"])
              (FreshChrome.name <$> available)).
Proof.
  rewrite getChromeBrowserName_head.
  by destruct (filter _ (FreshChrome.name <$> available)).
Qed.

Lemma chrome_names_spec (n : string) :
  n ∈ ["chrome"; "chromium"] ↔ n = "chrome" ∨ n = "chromium".
Proof.
  rewrite !elem_of_cons. split; [|tauto].
  intros [?|[?|Hn]]; [tauto..|]. by apply elem_of_nil in Hn.
Qed.

(** X17. The interceptor is activable exactly when some available browser
    is called [chrome] or [chromium]. *)
Theorem activable_iff_chrome_available (available : list FreshChrome.Browser) :
  FreshChrome.isActivable available = true
  ↔ ∃ b, b ∈ available
         ∧ (FreshChrome.name b = "chrome" ∨ FreshChrome.name b = "chromium").
Proof.
  unfold FreshChrome.isActivable. rewrite getChromeBrowserName_head.
  split.
  - destruct (head _) as [n|] eqn:Hn; [|done]. intros _.
    apply head_Some_elem_of in Hn.
    apply list_elem_of_filter in Hn as [Hn Hb].
    apply list_elem_of_fmap in Hb as (b & -> & Hb).
    exists b. split; [done|]. by apply chrome_names_spec.
  - intros (b & Hb & Hname).
    assert (Hin : FreshChrome.name b
                  ∈ filter (λ n, n ∈ ["chrome"; "chromium"])
                      (FreshChrome.name <$> available)).
    { apply list_elem_of_filter. split; [by apply chrome_names_spec|].
      apply list_elem_of_fmap. by exists b. }
    destruct (filter _ _) as [|n rest] eqn:Hf; [by apply elem_of_nil in Hin|].
    assert (Hn : n ∈ filter (λ n, n ∈ ["chrome"; "chromium"])
                       (FreshChrome.name <$> available))
      by (rewrite Hf; left).
    apply list_elem_of_filter in Hn as [Hn _]. cbn.
    by apply chrome_names_spec in Hn as [-> | ->].
Qed.

(** ** The registry *)

Lemma exit_fold_None (exited : nat) (key : string)
    (listeners : list (nat * string)) :
  ∀ m : gmap string FreshChrome.BrowserInstance,
    m !! key = None →
    foldl (λ m l, if bool_decide (l.1 = exited) then delete l.2 m else m)
      m listeners !! key = None.
Proof.
  induction listeners as [|l listeners IH]; intros m Hm; [done|].
  cbn [foldl]. apply IH. case_bool_decide; [|done].
  destruct (decide (l.2 = key)) as [->|Hne].
  - apply lookup_delete_eq.
  - by rewrite lookup_delete_ne.
Qed.

Lemma exit_fold_listened (exited : nat) (key : string)
    (listeners : list (nat * string)) :
  ∀ m : gmap string FreshChrome.BrowserInstance,
    (exited, key) ∈ listeners →
    foldl (λ m l, if bool_decide (l.1 = exited) then delete l.2 m else m)
      m listeners !! key = None.
Proof.
  induction listeners as [|l listeners IH]; intros m Hin.
  - by apply elem_of_nil in Hin.
  - cbn [foldl]. apply elem_of_cons in Hin as [<-|Hin]; [|by apply IH].
    cbn. rewrite bool_decide_eq_true_2 by done.
    apply exit_fold_None, lookup_delete_eq.
Qed.

Lemma exit_fold_other (exited : nat) (key : string)
    (listeners : list (nat * string)) :
  ∀ m : gmap string FreshChrome.BrowserInstance,
    (exited, key) ∉ listeners →
    foldl (λ m l, if bool_decide (l.1 = exited) then delete l.2 m else m)
      m listeners !! key = m !! key.
Proof.
  induction listeners as [|[p k] listeners IH]; intros m Hnin; [done|].
  cbn [foldl]. apply not_elem_of_cons in Hnin as [Hne Hnin].
  rewrite IH by done. cbn. case_bool_decide as Hp; [|done].
  apply lookup_delete_ne. intros ->. by subst p.
Qed.

Lemma exit_listened_inactive (st : FreshChrome.State) (exited : nat)
    (key : string) :
  (exited, key) ∈ FreshChrome.exitListeners st →
  FreshChrome.browsers (FreshChrome.on_exit st exited) !! key = None
  ∧ FreshChrome.isActive (FreshChrome.on_exit st exited)
      (FreshChrome.PortString key) = false.
Proof.
  intros Hin.
  assert (H : FreshChrome.browsers (FreshChrome.on_exit st exited) !! key
              = None) by by apply exit_fold_listened.
  split; [done|]. unfold FreshChrome.isActive. cbn [FreshChrome.property_key].
  by rewrite H.
Qed.

(** X18. When a process exits, every key one of its exit listeners was
    registered for is removed from the dictionary, whichever browser is
    stored under it by then, and the entries no listener of that process
    names are kept. *)
Theorem exit_removes_listened_keys (st : FreshChrome.State) (exited : nat)
    (key : string) :
  ((exited, key) ∈ FreshChrome.exitListeners st →
     FreshChrome.browsers (FreshChrome.on_exit st exited) !! key = None
     ∧ FreshChrome.isActive (FreshChrome.on_exit st exited)
         (FreshChrome.PortString key) = false)
  ∧ ((exited, key) ∉ FreshChrome.exitListeners st →
     FreshChrome.browsers (FreshChrome.on_exit st exited) !! key
       = FreshChrome.browsers st !! key).
Proof.
  split.
  - apply exit_listened_inactive.
  - intros Hnin. by apply exit_fold_other.
Qed.

Section FreshChromeActivate.

Variable readFile : string → option string.
Variable generateSPKIFingerprint : string → option string.
Variable startHideWarningServer :
  string → option FreshChrome.HideChromeWarningServer.
Variable getAvailableBrowsers : string → option (list FreshChrome.Browser).
Variable launchBrowser :
  string → FreshChrome.LaunchOptions → string
  → option FreshChrome.BrowserInstance.
Variable hideWarningCompleted : bool.
Variable hideWarningStopped : bool.

Lemma activate_inv config st proxyPort b st' :
  FreshChrome.activate readFile generateSPKIFingerprint
    startHideWarningServer getAvailableBrowsers launchBrowser
    hideWarningCompleted hideWarningStopped config st proxyPort
  = FreshChrome.Activated b st' →
  FreshChrome.isActive st (FreshChrome.PortNumber proxyPort) = false
  ∧ st' = FreshChrome.register st proxyPort b.
Proof.
  unfold FreshChrome.activate. intros H.
  repeat case_match; simplify_eq. done.
Qed.

(** X19. When [activate] launches a browser, the port was not active
    before; afterwards the port is active exactly when the browser has a
    pid, whether the port is given as a number or as its decimal string,
    and every other port is as it was. *)
Theorem activate_registers_the_port config st proxyPort b st' :
  FreshChrome.activate readFile generateSPKIFingerprint
    startHideWarningServer getAvailableBrowsers launchBrowser
    hideWarningCompleted hideWarningStopped config st proxyPort
  = FreshChrome.Activated b st' →
  FreshChrome.isActive st (FreshChrome.PortNumber proxyPort) = false
  ∧ FreshChrome.isActive st' (FreshChrome.PortNumber proxyPort)
    = FreshChrome.pid_truthy b
  ∧ FreshChrome.isActive st'
      (FreshChrome.PortString (FreshChrome.number_to_string proxyPort))
    = FreshChrome.pid_truthy b
  ∧ ∀ other, other ≠ proxyPort →
      FreshChrome.isActive st' (FreshChrome.PortNumber other)
      = FreshChrome.isActive st (FreshChrome.PortNumber other).
Proof.
  intros H. apply activate_inv in H as [Hbefore ->].
  split; [done|].
  unfold FreshChrome.isActive, FreshChrome.register. cbn.
  rewrite lookup_insert_eq. split; [done|]. split; [done|].
  intros other Hne. rewrite lookup_insert_ne; [done|].
  intros Heq. by apply number_to_string_inj in Heq.
Qed.

(** X20. After [activate] has launched a browser for a port, the exit of
    that browser's process leaves the port inactive and without entry. *)
Theorem activate_then_exit config st proxyPort b st' :
  FreshChrome.activate readFile generateSPKIFingerprint
    startHideWarningServer getAvailableBrowsers launchBrowser
    hideWarningCompleted hideWarningStopped config st proxyPort
  = FreshChrome.Activated b st' →
  FreshChrome.browsers (FreshChrome.on_exit st' (FreshChrome.process b))
    !! FreshChrome.number_to_string proxyPort = None
  ∧ FreshChrome.isActive (FreshChrome.on_exit st' (FreshChrome.process b))
      (FreshChrome.PortNumber proxyPort) = false.
Proof.
  intros H. apply activate_inv in H as [_ ->].
  apply exit_listened_inactive.
  cbn. apply elem_of_app. right. left.
Qed.

End FreshChromeActivate.

(** X21. The exit listener deletes by port, not by browser: when a second
    browser has been registered for a port before the first one exits, the
    exit of the first removes the entry of the second, and the port is
    reported inactive. *)
Theorem stale_exit_removes_newer_browser (st : FreshChrome.State)
    (proxyPort : N) (first second : FreshChrome.BrowserInstance) :
  FreshChrome.browsers
    (FreshChrome.register (FreshChrome.register st proxyPort first)
       proxyPort second)
    !! FreshChrome.number_to_string proxyPort = Some second
  ∧ FreshChrome.browsers
      (FreshChrome.on_exit
         (FreshChrome.register (FreshChrome.register st proxyPort first)
            proxyPort second)
         (FreshChrome.process first))
      !! FreshChrome.number_to_string proxyPort = None
  ∧ FreshChrome.isActive
      (FreshChrome.on_exit
         (FreshChrome.register (FreshChrome.register st proxyPort first)
            proxyPort second)
         (FreshChrome.process first))
      (FreshChrome.PortNumber proxyPort) = false.
Proof.
  split; [apply lookup_insert_eq|].
  apply exit_listened_inactive.
  cbn. apply elem_of_app. left. apply elem_of_app. right. left.
Qed.

(** X22. [deactivateAll] stops exactly the browsers that are stored in the
    dictionary with a pid; a browser stored without a pid is not stopped,
    and a browser registered under a numeric port is reached through its
    string key. *)
Theorem deactivateAll_stops_the_active (st : FreshChrome.State)
    (b : FreshChrome.BrowserInstance) :
  b ∈ FreshChrome.deactivateAll st
  ↔ ∃ key, FreshChrome.browsers st !! key = Some b
           ∧ FreshChrome.pid_truthy b = true.
Proof.
  unfold FreshChrome.deactivateAll. rewrite list_elem_of_omap. split.
  - intros (key & _ & H). unfold FreshChrome.deactivate in H.
    unfold FreshChrome.isActive in H. cbn in H.
    destruct (FreshChrome.browsers st !! key) as [b'|] eqn:Hb; [|done].
    destruct (FreshChrome.pid_truthy b') eqn:Hp; [|done].
    injection H as ->. by exists key.
  - intros (key & Hb & Hp). exists key. split.
    + apply list_elem_of_fmap. exists (key, b). split; [done|].
      by apply elem_of_map_to_list.
    + unfold FreshChrome.deactivate, FreshChrome.isActive. cbn.
      by rewrite Hb, Hp.
Qed.

(** X23. The browser [activate] asks the launcher for is always [chrome]
    or [chromium]: the first of the two among the available browsers, and
    [chrome] when neither is available. *)
Theorem launched_browser_name (available : list FreshChrome.Browser)
    (proxyPort : N) (server : FreshChrome.HideChromeWarningServer)
    (spkiFingerprint : string) :
  FreshChrome.browser
    (FreshChrome.launchOptions proxyPort
       (FreshChrome.getChromeBrowserName available) server spkiFingerprint)
  = default "chrome"
      (head (filter (λ n, n ∈ ["chrome"; "chromium"])
               (FreshChrome.name <$> available)))
  ∧ FreshChrome.browser
      (FreshChrome.launchOptions proxyPort
         (FreshChrome.getChromeBrowserName available) server spkiFingerprint)
    ∈ ["chrome"; "chromium"].
Proof.
  rewrite getChromeBrowserName_head. cbn [FreshChrome.launchOptions
    FreshChrome.browser].
  destruct (head _) as [n|] eqn:Hn; cbn [default].
  - apply head_Some_elem_of, list_elem_of_filter in Hn as [Hn _].
    apply chrome_names_spec in Hn as [-> | ->];
      (split; [done | apply chrome_names_spec; tauto]).
  - split; [done|]. apply chrome_names_spec. tauto.
Qed.

Lemma exit_removes_listened_keys_witness :
  (1, "8000") ∈ FreshChrome.exitListeners
                  (FreshChrome.register example_registry 8000 example_browser)
  ∧ FreshChrome.browsers
      (FreshChrome.on_exit
         (FreshChrome.register example_registry 8000 example_browser) 1)
      !! "8000" = None
  ∧ FreshChrome.isActive
      (FreshChrome.on_exit
         (FreshChrome.register example_registry 8000 example_browser) 1)
      (FreshChrome.PortString "8000") = false.
Proof.
  assert (H : (1, "8000")
              ∈ FreshChrome.exitListeners
                  (FreshChrome.register example_registry 8000
                     example_browser))
    by (vm_compute; left).
  split; [exact H|].
  exact (proj1 (exit_removes_listened_keys
                  (FreshChrome.register example_registry 8000
                     example_browser) 1 "8000") H).
Defined.

Lemma activate_registers_the_port_witness :
  example_activate example_registry 8000
    = FreshChrome.Activated example_browser
        (FreshChrome.register example_registry 8000 example_browser)
  ∧ FreshChrome.isActive example_registry (FreshChrome.PortNumber 8000)
    = false
  ∧ FreshChrome.isActive
      (FreshChrome.register example_registry 8000 example_browser)
      (FreshChrome.PortNumber 8000)
    = FreshChrome.pid_truthy example_browser
  ∧ FreshChrome.isActive
      (FreshChrome.register example_registry 8000 example_browser)
      (FreshChrome.PortString (FreshChrome.number_to_string 8000))
    = FreshChrome.pid_truthy example_browser
  ∧ ∀ other, other ≠ 8000%N →
      FreshChrome.isActive
        (FreshChrome.register example_registry 8000 example_browser)
        (FreshChrome.PortNumber other)
      = FreshChrome.isActive example_registry (FreshChrome.PortNumber other).
Proof.
  assert (H : example_activate example_registry 8000
              = FreshChrome.Activated example_browser
                  (FreshChrome.register example_registry 8000
                     example_browser))
    by (vm_compute; reflexivity).
  split; [exact H|]. unfold example_activate in H.
  exact (activate_registers_the_port _ _ _ _ _ _ _ _ _ _ _ _ H).
Defined.

Lemma activate_then_exit_witness :
  example_activate example_registry 8000
    = FreshChrome.Activated example_browser
        (FreshChrome.register example_registry 8000 example_browser)
  ∧ FreshChrome.browsers
      (FreshChrome.on_exit
         (FreshChrome.register example_registry 8000 example_browser)
         (FreshChrome.process example_browser))
      !! FreshChrome.number_to_string 8000 = None
  ∧ FreshChrome.isActive
      (FreshChrome.on_exit
         (FreshChrome.register example_registry 8000 example_browser)
         (FreshChrome.process example_browser))
      (FreshChrome.PortNumber 8000) = false.
Proof.
  assert (H : example_activate example_registry 8000
              = FreshChrome.Activated example_browser
                  (FreshChrome.register example_registry 8000
                     example_browser))
    by (vm_compute; reflexivity).
  split; [exact H|]. unfold example_activate in H.
  exact (activate_then_exit _ _ _ _ _ _ _ _ _ _ _ _ H).
Defined.

(** The order of the launcher's list decides between the two names. *)
Example chromium_listed_first :
  FreshChrome.getChromeBrowserName
    [{| FreshChrome.name := "firefox" |};
     {| FreshChrome.name := "chromium" |};
     {| FreshChrome.name := "chrome" |}]
  = Some "chromium".
Proof. vm_compute. reflexivity. Qed.
